(** * core.js of the InPanel web console: route table, auth gate,
      idle/auth-expiry watchdog and cookie helpers.

    The development follows [src/public/js/core.js].  The browser and the
    AngularJS services the file talks to ([$location], [Message], [Timeout],
    [Auth.required], [Auth.getlastactive], [document.cookie]) are modelled as
    explicit state: every call the source makes is a state transformer, every
    callback the source hands out is an event that the environment may fire. *)

From stdpp Require Import base strings gmap list.
From Stdlib Require Import ZArith Lia Ascii.

Open Scope string_scope.
Open Scope Z_scope.
Open Scope list_scope.

(** ** JavaScript numbers, as far as the watchdog uses them

    Timestamps are integers of milliseconds; [parseInt] of a reply that holds
    no number is [NaN], and every comparison with [NaN] is false. *)

Inductive jsnum : Type :=
| Num (z : Z)
| NaN.

Definition js_sub (a b : jsnum) : jsnum :=
  match a, b with
  | Num x, Num y => Num (x - y)
  | _, _ => NaN
  end.

Definition js_mul (a b : jsnum) : jsnum :=
  match a, b with
  | Num x, Num y => Num (x * y)
  | _, _ => NaN
  end.

Definition js_lt (a b : jsnum) : bool :=
  match a, b with
  | Num x, Num y => x <? y
  | _, _ => false
  end.

Definition js_gt (a b : jsnum) : bool := js_lt b a.

(** [a <= b] on numbers, false as soon as one side is [NaN]. *)
Definition js_le (a b : jsnum) : Prop :=
  match a, b with
  | Num x, Num y => x <= y
  | _, _ => False
  end.

(** * The idle/auth-expiry watchdog ([Auth.auto_auth]) *)

Module Watchdog.

(** The two functions the source hands to [Timeout]: [active] and the
    [toggletitle] closure of one expiry warning (named by the index of its
    environment). *)
Inductive callback : Type :=
| Cactive
| Ctoggletitle (env : nat).

(** Modelled from the spec: the [Timeout] service (module inpanel.services)
    is not in this file.  It is a named timer: scheduling under a name
    replaces the timer already pending under that name, so one chain per name
    is alive.  The third and fourth arguments are [false, true] at every call
    site of the watchdog and are left out. *)
Record timer : Type := Timer { fn : callback; delay : Z }.

(** The variables one run of the expiry branch closes over. *)
Record blink_env : Type := BlinkEnv {
  oldHtmlTitle : string;
  blink_i : nat;
  stop_blink : bool
}.

(** Calls that leave the page: the trace keeps them in program order. *)
Inductive effect : Type :=
| Auth_required        (* Auth.required() without callbacks *)
| Auth_getlastactive   (* Auth.getlastactive(callback) *)
| Modal.               (* $('#_authconfirm').modal() *)

#[global] Instance effect_eq_dec : EqDecision effect.
Proof. solve_decision. Defined.

Record state : Type := State {
  _auth_check_inited : bool;          (* $rootScope._auth_check_inited *)
  last_active : jsnum;                (* var last_active *)
  htmlTitle : string;                 (* $rootScope.htmlTitle *)
  _authrenew : option nat;            (* $rootScope._authrenew, by environment *)
  path : string;                      (* $location.path() *)
  timers : gmap string timer;         (* pending named timers *)
  envs : list blink_env;              (* environments of the expiry closures *)
  inflight : list Z;                  (* getlastactive callbacks, each with its [now] *)
  trace : list effect
}.

Definition check_timeout : Z := 300 * 1000.
Definition auth_timeout : Z := 2500 * 1000.
Definition blinks : list string := ["登录超时"; "!!!!!!!!"].

Definition set_last_active (v : jsnum) (s : state) : state :=
  State (_auth_check_inited s) v (htmlTitle s) (_authrenew s) (path s)
        (timers s) (envs s) (inflight s) (trace s).

Definition set_htmlTitle (t : string) (s : state) : state :=
  State (_auth_check_inited s) (last_active s) t (_authrenew s) (path s)
        (timers s) (envs s) (inflight s) (trace s).

Definition set_authrenew (r : option nat) (s : state) : state :=
  State (_auth_check_inited s) (last_active s) (htmlTitle s) r (path s)
        (timers s) (envs s) (inflight s) (trace s).

Definition set_path (p : string) (s : state) : state :=
  State (_auth_check_inited s) (last_active s) (htmlTitle s) (_authrenew s) p
        (timers s) (envs s) (inflight s) (trace s).

Definition set_timers (m : gmap string timer) (s : state) : state :=
  State (_auth_check_inited s) (last_active s) (htmlTitle s) (_authrenew s)
        (path s) m (envs s) (inflight s) (trace s).

Definition set_envs (l : list blink_env) (s : state) : state :=
  State (_auth_check_inited s) (last_active s) (htmlTitle s) (_authrenew s)
        (path s) (timers s) l (inflight s) (trace s).

Definition set_inflight (l : list Z) (s : state) : state :=
  State (_auth_check_inited s) (last_active s) (htmlTitle s) (_authrenew s)
        (path s) (timers s) (envs s) l (trace s).

Definition emit (e : effect) (s : state) : state :=
  State (_auth_check_inited s) (last_active s) (htmlTitle s) (_authrenew s)
        (path s) (timers s) (envs s) (inflight s) (trace s ++ [e]).

(** [Timeout(f, d, false, true, name)]. *)
Definition Timeout (f : callback) (d : Z) (name : string) (s : state) : state :=
  set_timers (<[name := Timer f d]> (timers s)) s.

(** [toggletitle] of environment [e] (source lines 169-176). *)
Definition toggletitle (e : nat) (s : state) : state :=
  match envs s !! e with
  | None => s
  | Some env =>
      if negb (stop_blink env) then
        let title := default "" (blinks !! (blink_i env mod 2)%nat) in
        let env' := BlinkEnv (oldHtmlTitle env) (S (blink_i env)) (stop_blink env) in
        Timeout (Ctoggletitle e) 1000 "_authtimeout_title"
                (set_envs (<[e := env']> (envs s)) (set_htmlTitle title s))
      else set_htmlTitle (oldHtmlTitle env) s
  end.

(** [$rootScope._authrenew] as created for environment [e] (lines 178-183). *)
Definition authrenew (e : nat) (now : Z) (s : state) : state :=
  let s1 := set_last_active (Num now) s in
  let s2 :=
    match envs s1 !! e with
    | Some env =>
        set_envs (<[e := BlinkEnv (oldHtmlTitle env) (blink_i env) true]> (envs s1)) s1
    | None => s1
    end in
  let s3 := emit Auth_required s2 in
  Timeout Cactive check_timeout "_authtimeout" s3.

(** The function passed to [Auth.getlastactive] by the tick that read the
    clock as [now]; [lastactive] is [parseInt] of what the server sent
    (lines 161-189). *)
Definition getlastactive_cb (now : Z) (lastactive : jsnum) (s : state) : state :=
  let lastactive := js_mul lastactive (Num 1000) in
  if js_gt (js_sub (Num now) lastactive) (Num auth_timeout) then
    let e := length (envs s) in
    let s1 := set_envs (envs s ++ [BlinkEnv (htmlTitle s) 0 false]) s in
    let s2 := toggletitle e s1 in
    let s3 := set_authrenew (Some e) s2 in
    emit Modal s3
  else
    Timeout Cactive check_timeout "_authtimeout" (set_last_active lastactive s).

(** One watchdog tick: the body of [active] (lines 153-193), the clock read
    as [now]. *)
Definition active (now : Z) (s : state) : state :=
  let '(stop_check, s1) :=
    if js_lt (js_sub (Num now) (last_active s)) (Num check_timeout) then
      (false, emit Auth_required s)
    else if js_gt (js_sub (Num now) (last_active s)) (Num auth_timeout) then
      (true, set_inflight (inflight s ++ [now]) (emit Auth_getlastactive s))
    else (false, s) in
  if negb stop_check && negb (bool_decide (path s1 = "/")) then
    Timeout Cactive check_timeout "_authtimeout" s1
  else s1.

(** [Auth.auto_auth] (lines 137-196), the clock read as [now]. *)
Definition auto_auth (now : Z) (s : state) : state :=
  if negb (_auth_check_inited s) then
    let s1 := State true (Num now) (htmlTitle s) (_authrenew s) (path s)
                    (timers s) (envs s) (inflight s) (trace s) in
    Timeout Cactive check_timeout "_authtimeout" s1
  else s.

(** The document handlers exist once [auto_auth] has run (lines 146-151). *)
Definition mousemove (now : Z) (s : state) : state :=
  if _auth_check_inited s then set_last_active (Num now) s else s.

Definition keydown (now : Z) (s : state) : state :=
  if _auth_check_inited s then set_last_active (Num now) s else s.

(** What the environment can do to the page. *)
Inductive event : Type :=
| Init (now : Z)                         (* a controller invokes auto_auth *)
| Mousemove (now : Z)
| Keydown (now : Z)
| Fire (name : string) (now : Z)         (* the timer pending under [name] expires *)
| Reply (i : nat) (lastactive : jsnum)   (* the server answers the i-th query in flight *)
| Confirm (now : Z)                      (* the modal's button calls $rootScope._authrenew() *)
| Navigate (p : string).                 (* $location.path(p) *)

Definition run (c : callback) (now : Z) (s : state) : state :=
  match c with
  | Cactive => active now s
  | Ctoggletitle e => toggletitle e s
  end.

Definition step (ev : event) (s : state) : state :=
  match ev with
  | Init now => auto_auth now s
  | Mousemove now => mousemove now s
  | Keydown now => keydown now s
  | Fire name now =>
      match timers s !! name with
      | Some t => run (fn t) now (set_timers (delete name (timers s)) s)
      | None => s
      end
  | Reply i v =>
      match inflight s !! i with
      | Some now => getlastactive_cb now v (set_inflight (delete i (inflight s)) s)
      | None => s
      end
  | Confirm now =>
      match _authrenew s with
      | Some e => authrenew e now s
      | None => s
      end
  | Navigate p => set_path p s
  end.

Definition steps (evs : list event) (s : state) : state :=
  foldl (fun s ev => step ev s) s evs.

(** The page before any controller has run, showing [title] at [p]. *)
Definition fresh (title p : string) : state :=
  State false NaN title None p ∅ [] [] [].

(** How often an effect occurs in a trace. *)
Definition count (e : effect) (tr : list effect) : nat :=
  length (filter (fun x => bool_decide (x = e)) tr).

(** ** Vocabulary of the statements *)

Definition title_timer : string := "_authtimeout_title".
Definition check_timer : string := "_authtimeout".

(** Events that leave a pending warning alone: input, navigation and the
    title timer itself. *)
Definition quiet (ev : event) : bool :=
  match ev with
  | Mousemove _ | Keydown _ | Navigate _ => true
  | Fire name _ => bool_decide (name = title_timer)
  | _ => false
  end.

Definition is_title_fire (ev : event) : bool :=
  match ev with
  | Fire name _ => bool_decide (name = title_timer)
  | _ => false
  end.

Definition title_fires (evs : list event) : nat :=
  length (filter (fun ev => is_title_fire ev = true) evs).

(** The page warns through environment [e]: the title timer is pending,
    [k] toggles have run since the first one and [old] is the title to
    restore. *)
Record blinking (e : nat) (old : string) (k : nat) (s : state) : Prop := {
  blinking_renew : _authrenew s = Some e;
  blinking_env : envs s !! e = Some (BlinkEnv old (S k) false);
  blinking_timer : timers s !! title_timer = Some (Timer (Ctoggletitle e) 1000);
  blinking_title : htmlTitle s = if Nat.even k then "登录超时" else "!!!!!!!!"
}.

(** The tick at [now] takes the branch that asks the server (line 158). *)
Definition checks_server (now : Z) (s : state) : bool :=
  negb (js_lt (js_sub (Num now) (last_active s)) (Num check_timeout))
  && js_gt (js_sub (Num now) (last_active s)) (Num auth_timeout).

End Watchdog.

(** * The auth gate ([Auth.auth]) *)

Module Gate.

(** An argument as the source writes it at a call. *)
Inductive jsarg : Type :=
| Astr (s : string)
| Abool (b : bool)
| Aundefined.

(** Calls on the [Message] service, with both argument positions. *)
Inductive message_call : Type :=
| setInfo (a1 a2 : jsarg)
| setError (a1 a2 : jsarg).

Inductive promise_state : Type :=
| Pending
| Resolved
| Rejected.

Record state : Type := State {
  deferred : promise_state;       (* the promise auth() returns *)
  path : string;                  (* $location.path() *)
  messages : list message_call    (* calls on Message, in program order *)
}.

Definition dq : string := String "034"%char EmptyString.

Definition msg_loading : string := "正在加载，请稍候...".
Definition msg_unauthorized : string :=
  "身份认证失败，请<a href=" +:+ dq +:+ "#/login" +:+ dq +:+ ">重新登录</a>！".
Definition msg_failed : string := "对不起，加载失败！（网络异常或服务器故障）".

Definition say (m : message_call) (s : state) : state :=
  State (deferred s) (path s) (messages s ++ [m]).

(** [deferred.resolve()]: settles a pending promise. *)
Definition resolve (s : state) : state :=
  match deferred s with
  | Pending => State Resolved (path s) (messages s)
  | _ => s
  end.

(** [$location.path(p)]. *)
Definition location_path (p : string) (s : state) : state :=
  State (deferred s) p (messages s).

(** The synchronous part of [auth] (lines 120-121 and 133): a new deferred
    and the loading notice. *)
Definition auth_begin (s : state) : state :=
  say (setInfo (Astr msg_loading) (Abool true))
      (State Pending (path s) (messages s)).

(** The success callback given to [Auth.required] (lines 122-125). *)
Definition on_success (authed : bool) (s : state) : state :=
  let s1 := say (setInfo (Abool false) Aundefined) s in
  if authed then resolve s1 else s1.

(** The error callback given to [Auth.required] (lines 125-132). *)
Definition on_error (status : Z) (s : state) : state :=
  if status =? 403 then
    location_path "/login" (say (setError (Astr msg_unauthorized) Aundefined) s)
  else
    say (setError (Astr msg_failed) Aundefined) s.

(** How [Auth.required] answers: through one of its two callbacks. *)
Inductive answer : Type :=
| Success (authed : bool)
| Failure (status : Z).

Definition auth (a : answer) (s : state) : state :=
  let s1 := auth_begin s in
  match a with
  | Success authed => on_success authed s1
  | Failure status => on_error status s1
  end.


Definition is_error (m : message_call) : bool :=
  match m with
  | setError _ _ => true
  | setInfo _ _ => false
  end.




End Gate.

(** * The route table ([inpanel.config]) *)

Module Router.

Record route : Type := Route {
  templateUrl : string;
  controller : string;        (* the controller function, by its name *)
  reloadOnSearch : bool;
  resolve : option string     (* [Some "Auth"] when the route is gated *)
}.

(** A piece of a path pattern: a literal character or a [:name] group. *)
Inductive tok : Type :=
| Lit (c : ascii)
| Param (name : string).

Definition is_word (c : ascii) : bool :=
  let n := nat_of_ascii c in
  ((48 <=? n) && (n <=? 57) || (65 <=? n) && (n <=? 90)
   || (97 <=? n) && (n <=? 122) || (n =? 95))%nat.

Definition flush (cur : option string) : list tok :=
  match cur with
  | None => []
  | Some EmptyString => [Lit ":"%char]
  | Some name => [Param name]
  end.

(** Splits a pattern into literals and [:name] groups; [cur] is the group
    being read. *)
Fixpoint tokenize (cur : option string) (p : string) : list tok :=
  match p with
  | EmptyString => flush cur
  | String c p' =>
      match cur with
      | Some name =>
          if is_word c then tokenize (Some (name +:+ String c EmptyString)) p'
          else flush cur ++
               (if Ascii.eqb c ":" then tokenize (Some EmptyString) p'
                else Lit c :: tokenize None p')
      | None =>
          if Ascii.eqb c ":" then tokenize (Some EmptyString) p'
          else Lit c :: tokenize None p'
      end
  end.

(** A [:name] group stands for any run of characters other than [/]; the
    whole path has to be consumed. *)
Fixpoint match_toks (ts : list tok) (s : string) : bool :=
  match ts with
  | [] => bool_decide (s = EmptyString)
  | Lit c :: ts' =>
      match s with
      | String d s' => Ascii.eqb c d && match_toks ts' s'
      | EmptyString => false
      end
  | Param _ :: ts' =>
      (fix eat (s : string) : bool :=
         match_toks ts' s
         || match s with
            | String d s' => negb (Ascii.eqb d "/") && eat s'
            | EmptyString => false
            end) s
  end.

Definition matches (pattern p : string) : bool :=
  match_toks (tokenize None pattern) p.

(** Modelled from the spec: [$routeProvider] belongs to AngularJS, not to
    this file.  The table keeps the [when] entries in registration order and
    one [otherwise] entry; a path resolves to the first entry whose pattern
    matches it and to the [otherwise] entry when none does.  Entries the
    framework may add on its own (a redirect between a path and its form
    with a trailing slash) are not part of the table. *)
Record table : Type := Table {
  whens : list (string * route);
  fallback : option string      (* redirectTo of the otherwise entry *)
}.

Definition when (p : string) (r : route) (t : table) : table :=
  Table (whens t ++ [(p, r)]) (fallback t).

Definition otherwise (redirectTo : string) (t : table) : table :=
  Table (whens t) (Some redirectTo).

Inductive resolution : Type :=
| Render (r : route)
| RedirectTo (p : string)
| NoRoute.

Definition parseRoute (t : table) (p : string) : resolution :=
  match find (fun e => matches (fst e) p) (whens t) with
  | Some e => Render (snd e)
  | None =>
      match fallback t with
      | Some q => RedirectTo q
      | None => NoRoute
      end
  end.

(** A navigation: resolve, and follow a redirect once. *)
Definition navigate (t : table) (p : string) : resolution :=
  match parseRoute t p with
  | RedirectTo q => parseRoute t q
  | r => r
  end.

Section Config.

(** Globals the page defines before this file is loaded: the template
    directory and the release stamp, as it prints. *)
Variables (template_path _v : string).

Definition _r (t c : string) (a : bool) : route :=
  Route (template_path +:+ "/partials/" +:+ t +:+ ".html?_v=" +:+ _v) c false
        (if negb a then Some "Auth" else None).

(** The [when] calls of lines 16-78, in order. *)
Definition entries : list (string * route) :=
  [ ("/login", _r "login" "LoginCtrl" true);
    ("/", _r "main" "MainCtrl" false);
    ("/service/nginx", _r "service/nginx" "ServiceNginxCtrl" false);
    ("/service/apache", _r "service/apache" "ServiceApacheCtrl" false);
    ("/service/lighttpd", _r "service/lighttpd" "ServiceLighttpdCtrl" false);
    ("/service/tomcat", _r "service/tomcat" "ServiceTomcatCtrl" false);
    ("/service/vsftpd", _r "service/vsftpd" "ServiceVsftpdCtrl" false);
    ("/service/proftpd", _r "service/proftpd" "ServiceProFTPDCtrl" false);
    ("/service/pureftpd", _r "service/pureftpd" "ServicePureFTPdCtrl" false);
    ("/service/mysql", _r "service/mysql" "ServiceMySQLCtrl" false);
    ("/service/mariadb", _r "service/mariadb" "ServiceMariaDBCtrl" false);
    ("/service/redis", _r "service/redis" "ServiceRedisCtrl" false);
    ("/service/memcache", _r "service/memcache" "ServiceMemcacheCtrl" false);
    ("/service/mongodb", _r "service/mongodb" "ServiceMongoDBCtrl" false);
    ("/service/minio", _r "service/minio" "ServiceMinIOCtrl" false);
    ("/service/php", _r "service/php" "ServicePHPCtrl" false);
    ("/service/sendmail", _r "service/sendmail" "ServiceSendmailCtrl" false);
    ("/service/ssh", _r "service/ssh" "ServiceSSHCtrl" false);
    ("/service/iptables", _r "service/iptables" "ServiceIPTablesCtrl" false);
    ("/service/cron", _r "service/cron" "ServiceCronCtrl" false);
    ("/service/ntp", _r "service/ntp" "ServiceNTPCtrl" false);
    ("/service/named", _r "service/named" "ServiceNamedCtrl" false);
    ("/service/samba", _r "service/samba" "ServiceSambaCtrl" false);
    ("/service", _r "service/index" "ServiceCtrl" false);
    ("/file", _r "file/file" "FileCtrl" false);
    ("/file/go#(:path)", _r "file/file" "FileCtrl" false);
    ("/file/trash", _r "file/trash" "FileTrashCtrl" false);
    ("/site", _r "site/index" "SiteCtrl" false);
    ("/site/nginx/:section", _r "site/nginx/site" "SiteNginxCtrl" false);
    ("/site/apache/:section", _r "site/apache/site" "SiteApacheCtrl" false);
    ("/database", _r "database/index" "DatabaseCtrl" false);
    ("/database/mysql/db/new", _r "database/mysql/dbnew" "DatabaseMySQLNewDBCtrl" false);
    ("/database/mysql/db/edit/:section", _r "database/mysql/dbedit" "DatabaseMySQLEditDBCtrl" false);
    ("/database/mysql/user/new", _r "database/mysql/usernew" "DatabaseMySQLNewUserCtrl" false);
    ("/database/mysql/user/edit/:section", _r "database/mysql/useredit" "DatabaseMySQLEditUserCtrl" false);
    ("/ftp", _r "ftp" "FtpCtrl" false);
    ("/utils", _r "utils/index" "UtilsCtrl" false);
    ("/utils/user", _r "utils/user" "UtilsUserCtrl" false);
    ("/utils/process", _r "utils/process" "UtilsProcessCtrl" false);
    ("/utils/network", _r "utils/network" "UtilsNetworkCtrl" false);
    ("/utils/time", _r "utils/time" "UtilsTimeCtrl" false);
    ("/utils/cron", _r "utils/cron" "UtilsCronCtrl" false);
    ("/utils/ssl", _r "utils/ssl" "UtilsSSLCtrl" false);
    ("/utils/repository", _r "utils/repository" "UtilsRepositoryCtrl" false);
    ("/utils/shell", _r "utils/shell" "UtilsShellCtrl" false);
    ("/utils/firewall", _r "utils/firewall" "UtilsFirewallCtrl" false);
    ("/storage", _r "storage/index" "StorageCtrl" false);
    ("/storage/remote/:section", _r "storage/remote" "StorageRemoteCtrl" false);
    ("/storage/autofm", _r "storage/autofm" "StorageAutoFMCtrl" false);
    ("/storage/movedata", _r "storage/movedata" "StorageMoveDataCtrl" false);
    ("/storage/backup", _r "storage/backup" "BackupCtrl" false);
    ("/storage/migrate", _r "storage/migrate" "UtilsMigrateCtrl" false);
    ("/ecs", _r "ecs/ecs" "ECSCtrl" false);
    ("/ecs/index", _r "ecs/index" "ECSIndexCtrl" false);
    ("/ecs/account", _r "ecs/account" "ECSAccountCtrl" false);
    ("/ecs/:section", _r "ecs/setting" "ECSSettingCtrl" false);
    ("/setting", _r "setting" "SettingCtrl" false);
    ("/secure", _r "secure" "SecureCtrl" false);
    ("/plugins", _r "plugins/index" "PluginsHome" false);
    ("/plugins/:section", _r "plugins/plugins" "PluginsCtrl" false);
    ("/log", _r "log" "LogCtrl" false);
    ("/logout", _r "logout" "LogoutCtrl" false);
    ("/sorry", _r "sorry" "SorryCtrl" false) ].

(** The configuration block: every [when], then [otherwise] (lines 15-81). *)
Definition config : table :=
  otherwise "/sorry"
    (foldl (fun t e => when (fst e) (snd e) t) (Table [] None) entries).

(** A path is registered when some [when] pattern matches it. *)
Definition registered (p : string) : bool :=
  existsb (fun e => matches (fst e) p) entries.

End Config.

End Router.

(** * The cookie helpers ([set_cookie], [get_cookie], [del_cookie]) *)

Module Cookie.

(** A JavaScript string is kept as the octets of its UTF-8 form, a lone
    surrogate as the three octets that UTF-8 proper leaves out; the
    well-formed strings are those for which [utf8] holds. *)

Definition code (c : ascii) : nat := nat_of_ascii c.

Fixpoint mem (c : ascii) (s : string) : bool :=
  match s with
  | EmptyString => false
  | String d s' => Ascii.eqb c d || mem c s'
  end.

Definition is_digit (c : ascii) : bool := ((48 <=? code c) && (code c <=? 57))%nat.

Definition is_alpha (c : ascii) : bool :=
  ((65 <=? code c) && (code c <=? 90) || (97 <=? code c) && (code c <=? 122))%nat.

(** ** [encodeURIComponent] and [decodeURIComponent] *)

(** The characters [encodeURIComponent] leaves alone. *)
Definition unreserved (c : ascii) : bool :=
  is_alpha c || is_digit c || mem c "-_.!~*'()".

Definition hex_digit (n : nat) : ascii :=
  match String.get n "0123456789ABCDEF" with
  | Some c => c
  | None => "0"%char
  end.

Definition hex_value (c : ascii) : option nat :=
  if is_digit c then Some (code c - 48)%nat
  else if ((65 <=? code c) && (code c <=? 70))%nat then Some (code c - 55)%nat
  else if ((97 <=? code c) && (code c <=? 102))%nat then Some (code c - 87)%nat
  else None.

(** What [encodeURIComponent] writes for a well-formed string: every other
    octet of the UTF-8 form becomes [%XX]. *)
Fixpoint percent_encode (s : string) : string :=
  match s with
  | EmptyString => EmptyString
  | String c s' =>
      if unreserved c then String c (percent_encode s')
      else String "%" (String (hex_digit (code c / 16))
                      (String (hex_digit (code c mod 16)) (percent_encode s')))
  end.

(** What [decodeURIComponent] reads: a character as it stands, or the octet
    of an escape. *)
Inductive item : Type :=
| Raw (c : ascii)
| Esc (b : nat).

(** A [%] must be followed by two hexadecimal digits. *)
Fixpoint unescape (s : string) : option (list item) :=
  match s with
  | EmptyString => Some []
  | String c s' =>
      if Ascii.eqb c "%" then
        match s' with
        | String h (String l s'') =>
            match hex_value h, hex_value l with
            | Some a, Some b => cons (Esc (16 * a + b)) <$> unescape s''
            | _, _ => None
            end
        | _ => None
        end
      else cons (Raw c) <$> unescape s'
  end.

Definition continuation (b : nat) : bool := ((128 <=? b) && (b <=? 191))%nat.

(** The second octet of a sequence, by its first: the ranges that leave out
    overlong forms, surrogates and code points past U+10FFFF. *)
Definition second_ok (b1 b2 : nat) : bool :=
  (if b1 =? 224 then (160 <=? b2) && (b2 <=? 191)
   else if b1 =? 237 then (128 <=? b2) && (b2 <=? 159)
   else if b1 =? 240 then (144 <=? b2) && (b2 <=? 191)
   else if b1 =? 244 then (128 <=? b2) && (b2 <=? 143)
   else continuation b2)%nat.

Definition lead2 (b : nat) : bool := ((194 <=? b) && (b <=? 223))%nat.
Definition lead3 (b : nat) : bool := ((224 <=? b) && (b <=? 239))%nat.
Definition lead4 (b : nat) : bool := ((240 <=? b) && (b <=? 244))%nat.

Definition chr (b : nat) : ascii := ascii_of_nat b.

(** Escaped octets at or above 128 have to spell one UTF-8 sequence, made
    of escapes only. *)
Fixpoint assemble (l : list item) : option string :=
  match l with
  | [] => Some EmptyString
  | Raw c :: l' => String c <$> assemble l'
  | Esc b :: l' =>
      if (b <? 128)%nat then String (chr b) <$> assemble l'
      else if lead2 b then
        match l' with
        | Esc b2 :: l2 =>
            if second_ok b b2
            then (fun r => String (chr b) (String (chr b2) r)) <$> assemble l2
            else None
        | _ => None
        end
      else if lead3 b then
        match l' with
        | Esc b2 :: Esc b3 :: l3 =>
            if second_ok b b2 && continuation b3
            then (fun r => String (chr b) (String (chr b2) (String (chr b3) r)))
                   <$> assemble l3
            else None
        | _ => None
        end
      else if lead4 b then
        match l' with
        | Esc b2 :: Esc b3 :: Esc b4 :: l4 =>
            if second_ok b b2 && continuation b3 && continuation b4
            then (fun r => String (chr b) (String (chr b2)
                             (String (chr b3) (String (chr b4) r))))
                   <$> assemble l4
            else None
        | _ => None
        end
      else None
  end.

(** [None] is the URIError the builtin throws. *)
Definition decodeURIComponent (s : string) : option string :=
  unescape s ≫= assemble.

(** Well-formed strings: the UTF-8 form of a sequence of code points. *)
Inductive utf8 : string -> Prop :=
| utf8_nil : utf8 EmptyString
| utf8_1 c s :
    (code c < 128)%nat -> utf8 s -> utf8 (String c s)
| utf8_2 c1 c2 s :
    lead2 (code c1) = true -> second_ok (code c1) (code c2) = true ->
    utf8 s -> utf8 (String c1 (String c2 s))
| utf8_3 c1 c2 c3 s :
    lead3 (code c1) = true -> second_ok (code c1) (code c2) = true ->
    continuation (code c3) = true ->
    utf8 s -> utf8 (String c1 (String c2 (String c3 s)))
| utf8_4 c1 c2 c3 c4 s :
    lead4 (code c1) = true -> second_ok (code c1) (code c2) = true ->
    continuation (code c3) = true -> continuation (code c4) = true ->
    utf8 s -> utf8 (String c1 (String c2 (String c3 (String c4 s)))).

(** [utf8], decided. *)
Fixpoint well_formed (s : string) : bool :=
  match s with
  | EmptyString => true
  | String c1 s1 =>
      if (code c1 <? 128)%nat then well_formed s1
      else if lead2 (code c1) then
        match s1 with
        | String c2 s2 => second_ok (code c1) (code c2) && well_formed s2
        | _ => false
        end
      else if lead3 (code c1) then
        match s1 with
        | String c2 (String c3 s3) =>
            second_ok (code c1) (code c2) && continuation (code c3)
            && well_formed s3
        | _ => false
        end
      else if lead4 (code c1) then
        match s1 with
        | String c2 (String c3 (String c4 s4)) =>
            second_ok (code c1) (code c2) && continuation (code c3)
            && continuation (code c4) && well_formed s4
        | _ => false
        end
      else false
  end.

(** How a call ends: with a value, or by throwing URIError. *)
Inductive completion (A : Type) : Type :=
| Normal (a : A)
| URIError.
Arguments Normal {A} a.
Arguments URIError {A}.

(** Statements in sequence: a throw ends the run. *)
#[global] Instance completion_bind : MBind completion :=
  fun A B f m =>
    match m with
    | Normal a => f a
    | URIError => URIError
    end.

(** [encodeURIComponent] throws URIError on a string with a lone
    surrogate. *)
Definition encodeURIComponent (s : string) : completion string :=
  if well_formed s then Normal (percent_encode s) else URIError.

(** ** Dates: [Date.prototype.toGMTString] and the browser reading it back *)

Definition weekdays : list string := ["Sun"; "Mon"; "Tue"; "Wed"; "Thu"; "Fri"; "Sat"].
Definition months : list string :=
  ["Jan"; "Feb"; "Mar"; "Apr"; "May"; "Jun"; "Jul"; "Aug"; "Sep"; "Oct"; "Nov"; "Dec"].

(** Day number since 1970-01-01 to (year, month, day), proleptic Gregorian. *)
Definition civil_from_days (days : Z) : Z * Z * Z :=
  let z := days + 719468 in
  let era := z / 146097 in
  let doe := z - era * 146097 in
  let yoe := (doe - doe / 1460 + doe / 36524 - doe / 146096) / 365 in
  let doy := doe - (365 * yoe + yoe / 4 - yoe / 100) in
  let mp := (5 * doy + 2) / 153 in
  let d := doy - (153 * mp + 2) / 5 + 1 in
  let m := if mp <? 10 then mp + 3 else mp - 9 in
  let y := yoe + era * 400 in
  (if m <=? 2 then y + 1 else y, m, d).

Definition days_from_civil (y m d : Z) : Z :=
  let y := if m <=? 2 then y - 1 else y in
  let era := y / 400 in
  let yoe := y - era * 400 in
  let doy := (153 * (if 2 <? m then m - 3 else m + 9) + 2) / 5 + d - 1 in
  let doe := yoe * 365 + yoe / 4 - yoe / 100 + doy in
  era * 146097 + doe - 719468.

Definition digit (n : Z) : ascii :=
  match String.get (Z.to_nat n) "0123456789" with
  | Some c => c
  | None => "0"%char
  end.

Definition pad2 (n : Z) : string :=
  String (digit (n / 10 mod 10)) (String (digit (n mod 10)) EmptyString).

Definition pad4 (n : Z) : string := pad2 (n / 100) +:+ pad2 n.

(** [exp.toGMTString()] for a time value in milliseconds, as in
    [Thu, 03 Dec 2020 15:00:00 GMT]; years of four digits. *)
Definition toGMTString (t : Z) : string :=
  let secs := t / 1000 in
  let days := secs / 86400 in
  let rest := secs mod 86400 in
  let '(y, m, d) := civil_from_days days in
  nth (Z.to_nat ((days + 4) mod 7)) weekdays EmptyString +:+ ", " +:+ pad2 d
  +:+ " " +:+ nth (Z.to_nat (m - 1)) months EmptyString +:+ " " +:+ pad4 y
  +:+ " " +:+ pad2 (rest / 3600) +:+ ":" +:+ pad2 (rest / 60 mod 60)
  +:+ ":" +:+ pad2 (rest mod 60) +:+ " GMT".

Fixpoint number (acc : Z) (s : string) : option Z :=
  match s with
  | EmptyString => Some acc
  | String c s' =>
      if is_digit c then number (10 * acc + Z.of_nat (code c - 48)) s' else None
  end.

Fixpoint index_of (x : string) (l : list string) : option Z :=
  match l with
  | [] => None
  | y :: l' => if String.eqb x y then Some 0 else Z.succ <$> index_of x l'
  end.

(** The browser's date parser on the format [toGMTString] writes; any other
    attribute value is not a date to it.  The result is in milliseconds. *)
Definition parse_date (s : string) : option Z :=
  if negb (String.length s =? 29)%nat then None else
  d ← number 0 (String.substring 5 2 s);
  m ← index_of (String.substring 8 3 s) months;
  y ← number 0 (String.substring 12 4 s);
  hh ← number 0 (String.substring 17 2 s);
  mm ← number 0 (String.substring 20 2 s);
  ss ← number 0 (String.substring 23 2 s);
  Some ((((days_from_civil y (m + 1) d * 24 + hh) * 60 + mm) * 60 + ss) * 1000).

(** ** The cookie jar of the page: [document.cookie]

    The store follows RFC 6265 (sections 5.2 and 5.3) for one page: cookies
    are told apart by name; the Path, Domain, Secure and HttpOnly attributes
    are read over like any unknown attribute. *)

Inductive expiry : Type :=
| Session            (* no Expires or Max-Age: kept for the session *)
| Earliest           (* Max-Age of zero or less *)
| Until (t : Z).

Record cookie : Type := Cookie {
  c_name : string;
  c_value : string;
  c_expires : expiry
}.

Definition live (t : Z) (c : cookie) : bool :=
  match c_expires c with
  | Session => true
  | Earliest => false
  | Until e => t <? e
  end.

Definition is_wsp (c : ascii) : bool := Ascii.eqb c " " || (code c =? 9)%nat.

Fixpoint ltrim (s : string) : string :=
  match s with
  | String c s' => if is_wsp c then ltrim s' else s
  | EmptyString => EmptyString
  end.

Fixpoint rtrim (s : string) : string :=
  match s with
  | String c s' =>
      match rtrim s' with
      | EmptyString => if is_wsp c then EmptyString else String c EmptyString
      | r => String c r
      end
  | EmptyString => EmptyString
  end.

Definition trim (s : string) : string := rtrim (ltrim s).

(** The text before the first [d], and the text after it if [d] occurs. *)
Fixpoint split_first (d : ascii) (s : string) : string * option string :=
  match s with
  | EmptyString => (EmptyString, None)
  | String c s' =>
      if Ascii.eqb c d then (EmptyString, Some s')
      else let '(a, b) := split_first d s' in (String c a, b)
  end.

Fixpoint split_on (d : ascii) (s : string) : list string :=
  match s with
  | EmptyString => [EmptyString]
  | String c s' =>
      if Ascii.eqb c d then EmptyString :: split_on d s'
      else match split_on d s' with
           | x :: r => String c x :: r
           | [] => [String c EmptyString]
           end
  end.

Definition lower_char (c : ascii) : ascii :=
  if ((65 <=? code c) && (code c <=? 90))%nat then chr (code c + 32) else c.

Fixpoint lower (s : string) : string :=
  match s with
  | EmptyString => EmptyString
  | String c s' => String (lower_char c) (lower s')
  end.

(** The value of a Max-Age attribute: a digit or [-] first, digits after. *)
Definition delta_seconds (v : string) : option Z :=
  match v with
  | EmptyString => None
  | String c v' =>
      if Ascii.eqb c "-" then Z.opp <$> number 0 v'
      else if is_digit c then number 0 v
      else None
  end.

(** One pass over the attributes: the last Max-Age and the last Expires
    that parse. *)
Fixpoint attributes (now : Z) (avs : list string) (max_age expires : option expiry)
  : option expiry * option expiry :=
  match avs with
  | [] => (max_age, expires)
  | av :: avs' =>
      let '(n, v) := split_first "=" av in
      let n := lower (trim n) in
      let v := trim (default EmptyString v) in
      if String.eqb n "expires" then
        match parse_date v with
        | Some t => attributes now avs' max_age (Some (Until t))
        | None => attributes now avs' max_age expires
        end
      else if String.eqb n "max-age" then
        match delta_seconds v with
        | Some d =>
            attributes now avs'
              (Some (if d <=? 0 then Earliest else Until (now + d * 1000))) expires
        | None => attributes now avs' max_age expires
        end
      else attributes now avs' max_age expires
  end.

(** The cookie a string assigned to [document.cookie] at [now] stands for,
    if any: a string without [=] before its first [;], with an empty name,
    or with more than 4096 octets of name and value, is dropped. *)
Definition parse_cookie (now : Z) (str : string) : option cookie :=
  match split_on ";" str with
  | [] => None
  | nv :: avs =>
      match split_first "=" nv with
      | (_, None) => None
      | (n, Some v) =>
          let n := trim n in
          let v := trim v in
          if String.eqb n EmptyString then None
          else if (4096 <? String.length n + String.length v)%nat then None
          else
            let '(max_age, expires) := attributes now avs None None in
            Some (Cookie n v
                    (match max_age, expires with
                     | Some e, _ => e
                     | None, Some e => e
                     | None, None => Session
                     end))
      end
  end.

(** A cookie takes the place of the one with its name, else it is added. *)
Fixpoint store (c : cookie) (jar : list cookie) : list cookie :=
  match jar with
  | [] => [c]
  | d :: jar' =>
      if String.eqb (c_name d) (c_name c) then c :: jar' else d :: store c jar'
  end.

(** [document.cookie = str] at time [now]; expired cookies are evicted. *)
Definition assign (now : Z) (str : string) (jar : list cookie) : list cookie :=
  match parse_cookie now str with
  | Some c => filter (fun d => live now d = true) (store c jar)
  | None => jar
  end.

Definition render (c : cookie) : string := c_name c +:+ "=" +:+ c_value c.

Fixpoint join (l : list string) : string :=
  match l with
  | [] => EmptyString
  | [x] => x
  | x :: l' => x +:+ "; " +:+ join l'
  end.

(** Reading [document.cookie] at time [t]. *)
Definition document_cookie (t : Z) (jar : list cookie) : string :=
  join (render <$> filter (fun d => live t d = true) jar).

(** ** The regular expression of [get_cookie] *)

(** [starts_with p s]: what follows [p] when [s] begins with it. *)
Fixpoint starts_with (p s : string) : option string :=
  match p with
  | EmptyString => Some s
  | String c p' =>
      match s with
      | String d s' => if Ascii.eqb c d then starts_with p' s' else None
      | EmptyString => None
      end
  end.

(** The second group, the longest run free of [;]: the closing [;] or end
    of input then always matches. *)
Fixpoint capture (s : string) : string :=
  match s with
  | EmptyString => EmptyString
  | String c s' => if Ascii.eqb c ";" then EmptyString else String c (capture s')
  end.

(** Matches that begin with the space alternative, leftmost first. *)
Fixpoint scan (pat s : string) : option string :=
  match s with
  | EmptyString => None
  | String c s' =>
      if Ascii.eqb c " " then
        match starts_with pat s' with
        | Some r => Some (capture r)
        | None => scan pat s'
        end
      else scan pat s'
  end.

(** [document.cookie.match(reg)] for the [reg] of line 212, giving the
    second group: the start of input or a space, then [name], then [=], then
    the longest run free of [;].  This is what the pattern means for a
    [name] without regular-expression metacharacters, which it then spells
    out literally. *)
Definition regexp_exec (name doc : string) : option string :=
  let pat := name +:+ "=" in
  match starts_with pat doc with
  | Some r => Some (capture r)
  | None => scan pat doc
  end.

Definition metachars : string := "\^$.|?*+()[]{}".

(** ** The helpers of the source (lines 205-222) *)

Definition Days : Z := 30.

(** The jar after [set_cookie(name, value)] at time [now]; when the
    encoding throws, nothing is assigned. *)
Definition set_cookie (name value : string) (now : Z) (jar : list cookie)
  : completion (list cookie) :=
  let exp := now + Days * 24 * 60 * 60 * 1000 in
  match encodeURIComponent value with
  | Normal enc =>
      Normal (assign now (name +:+ "=" +:+ enc
                          +:+ ";expires=" +:+ toGMTString exp) jar)
  | URIError => URIError
  end.

(** [None] is JavaScript's [null]. *)
Definition get_cookie (name : string) (now : Z) (jar : list cookie)
  : completion (option string) :=
  match regexp_exec name (document_cookie now jar) with
  | Some arr2 =>
      match decodeURIComponent arr2 with
      | Some v => Normal (Some v)
      | None => URIError
      end
  | None => Normal None
  end.

Definition del_cookie (name : string) (now : Z) (jar : list cookie)
  : completion (list cookie) :=
  let exp := now - 1 in
  match get_cookie name now jar with
  | URIError => URIError
  | Normal (Some cval) =>
      Normal (assign now (name +:+ "=" +:+ cval +:+ ";expires=" +:+ toGMTString exp) jar)
  | Normal None => Normal jar
  end.

(** ** Vocabulary of the statements *)

Fixpoint all (p : ascii -> bool) (s : string) : bool :=
  match s with
  | EmptyString => true
  | String c s' => p c && all p s'
  end.

Definition is_not (d c : ascii) : bool := negb (Ascii.eqb c d).

(** A character of a plain cookie name: printable, not a space, none of
    [;], [=] and the metacharacters of regular expressions. *)
Definition name_char (c : ascii) : bool :=
  (33 <=? code c)%nat && (code c <=? 126)%nat
  && negb (mem c metachars) && negb (mem c ";=").

Definition name_ok (name : string) : bool :=
  negb (String.eqb name EmptyString) && all name_char name.

(** A cookie that cannot be mistaken for another one by [get_cookie]. *)
Definition tidy_cookie (c : cookie) : bool :=
  all (is_not " ") (c_name c) && all (is_not "=") (c_name c)
  && all (is_not " ") (c_value c).

Definition tidy (jar : list cookie) : Prop :=
  Forall (fun c => tidy_cookie c = true) jar /\ NoDup (c_name <$> jar).

(** The items [unescape] finds in an encoded string. *)
Fixpoint items (s : string) : list item :=
  match s with
  | EmptyString => []
  | String c s' => (if unreserved c then Raw c else Esc (code c)) :: items s'
  end.

(** [n] times the character [c]. *)
Fixpoint copies (n : nat) (c : ascii) : string :=
  match n with
  | O => EmptyString
  | S n' => String c (copies n' c)
  end.

(** Not white space. *)
Definition solid (c : ascii) : bool := negb (is_wsp c).

(** The characters [encodeURIComponent] writes. *)
Definition enc_char (c : ascii) : bool := unreserved c || Ascii.eqb c "%".

(** The characters [toGMTString] writes. *)
Definition date_char (c : ascii) : bool :=
  is_alpha c || is_digit c || mem c ", :".

(** Time values from 1970 on whose year is written with four digits. *)
Definition four_digit_years (t : Z) : Prop := 0 <= t < 240000000000000.

(** Text that [rtrim] leaves as it is and that is not empty. *)
Definition keeps (b : string) : Prop := rtrim b = b /\ b <> EmptyString.

(** The jar after a call that started from [jar]: a call that throws
    leaves the jar as it was. *)
Definition jar_after (m : completion (list cookie)) (jar : list cookie)
  : list cookie :=
  match m with
  | Normal jar' => jar'
  | URIError => jar
  end.

(** A tidy cookie under another name. *)
Definition other (name : string) (d : cookie) : Prop :=
  tidy_cookie d = true /\ c_name d <> name.

End Cookie.

(** * The server-type query ([$rootScope.checkVirt], lines 88-95) *)

Module Virt.

(** What [data['server.virt']] can be: a string, or [undefined] when the
    reply lacks the key. *)
Inductive jsval : Type :=
| Str (s : string)
| Undefined.

Record state : Type := State {
  virt : jsval;                     (* $rootScope.virt *)
  waiting : list (option nat);      (* callbacks of the requests in flight *)
  requests : nat;                   (* Request.get calls made so far *)
  called : list nat                 (* callbacks invoked, in order *)
}.

(** [$rootScope.virt = '?'] (line 88). *)
Definition init : state := State (Str "?") [] 0 [].

(** [virt != '?']. *)
Definition known (v : jsval) : bool :=
  match v with
  | Str s => negb (String.eqb s "?")
  | Undefined => true
  end.

(** [$rootScope.checkVirt(callback)] (lines 89-95); [callback] names the
    function passed, [None] when there is none. *)
Definition checkVirt (callback : option nat) (s : state) : state :=
  if known (virt s) then s
  else State (virt s) (waiting s ++ [callback]) (S (requests s)) (called s).

(** The function given to [Request.get] (lines 91-94), run on the reply to
    the [i]-th request in flight. *)
Definition reply (i : nat) (data : jsval) (s : state) : state :=
  match waiting s !! i with
  | Some callback =>
      State data (delete i (waiting s)) (requests s)
            (match callback with
             | Some f => called s ++ [f]
             | None => called s
             end)
  | None => s
  end.

Inductive event : Type :=
| Call (callback : option nat)
| Reply (i : nat) (data : jsval).

Definition step (ev : event) (s : state) : state :=
  match ev with
  | Call callback => checkVirt callback s
  | Reply i data => reply i data s
  end.

Definition steps (evs : list event) (s : state) : state :=
  foldl (fun s ev => step ev s) s evs.

(** The callbacks handed over by the calls of a run. *)
Fixpoint passed (evs : list event) : list nat :=
  match evs with
  | [] => []
  | Call (Some f) :: evs' => f :: passed evs'
  | _ :: evs' => passed evs'
  end.

(** The callbacks still awaited. *)
Definition awaited_of (w : list (option nat)) : list nat := omap id w.
Definition awaited (s : state) : list nat := awaited_of (waiting s).

End Virt.

(** * Vocabulary of the further properties *)

(** ** The watchdog *)

Module WatchdogTerms.
Import Watchdog.

(** Only the two timers of the watchdog are pending, each with the callback
    and the delay the source gives it. *)
Definition timers_ok (s : state) : Prop :=
  forall name t, timers s !! name = Some t ->
    (name = check_timer /\ t = Timer Cactive check_timeout)
    \/ (name = title_timer
        /\ exists e, t = Timer (Ctoggletitle e) 1000 /\ (e < length (envs s))%nat).

(** One round of an active user: an input event, then the tick. *)
Definition round (r : Z * Z) : list event :=
  [Mousemove (fst r); Fire check_timer (snd r)].

Definition rounds (rs : list (Z * Z)) : list event := concat (round <$> rs).

(** The tick at [now] calls nothing: idle time lies between the two
    thresholds, or [last_active] is no number. *)
Definition silent (now : Z) (s : state) : Prop :=
  match last_active s with
  | Num l => check_timeout <= now - l <= auth_timeout
  | NaN => True
  end.

(** The tick timer firing at each of the times [ts]. *)
Definition ticks (ts : list Z) : list event := Fire check_timer <$> ts.

(** Every warning opened one modal, and no modal was opened without a
    query answered by the server. *)
Definition accounted (s : state) : Prop :=
  count Modal (trace s) = length (envs s)
  /\ (count Modal (trace s) + length (inflight s)
      <= count Auth_getlastactive (trace s))%nat.
End WatchdogTerms.

(** ** The route table *)

Module RouterTerms.
Import Router.
(** A pattern without [:name] groups. *)
Definition literal (pattern : string) : bool :=
  forallb (fun t => match t with Lit _ => true | Param _ => false end)
          (tokenize None pattern).
End RouterTerms.

(** ** The cookie helpers, and [getCookie] *)

Module CookieTerms.
Import Cookie.
(** The cookie [set_cookie name value] leaves in the jar when called at
    [now]: the encoded value, kept until thirty days later, to the second. *)
Definition written (name value : string) (now : Z) : cookie :=
  Cookie name (percent_encode value)
         (Until ((now + Days * 24 * 60 * 60 * 1000) / 1000 * 1000)).

(** ** [getCookie] (lines 201-204) *)

(** The characters the class [\w] stands for. *)
Definition word_char (c : ascii) : bool := is_alpha c || is_digit c || Ascii.eqb c "_".

Definition word (o : option ascii) : bool :=
  match o with
  | Some c => word_char c
  | None => false
  end.

(** [\b] between two neighbours, [None] being an end of the input. *)
Definition boundary (prev next : option ascii) : bool := xorb (word prev) (word next).

Definition head (s : string) : option ascii :=
  match s with
  | String c _ => Some c
  | EmptyString => None
  end.

(** The group free of [;] followed by [\b]: the longest run after which a
    word boundary holds, if there is one; [prev] is the character before
    [s]. *)
Fixpoint last_boundary (prev : option ascii) (s : string) : option string :=
  match s with
  | EmptyString => if boundary prev None then Some EmptyString else None
  | String c s' =>
      if Ascii.eqb c ";" then
        if boundary prev (Some c) then Some EmptyString else None
      else
        match last_boundary (Some c) s' with
        | Some r => Some (String c r)
        | None => if boundary prev (Some c) then Some EmptyString else None
        end
  end.

(** The leftmost match of [\b], then [pat], then the group, then [\b];
    [pat] ends in [=]. *)
Fixpoint bsearch (pat : string) (prev : option ascii) (s : string) : option string :=
  let here :=
    if boundary prev (head s) then
      match starts_with pat s with
      | Some r => last_boundary (Some "="%char) r
      | None => None
      end
    else None in
  match here with
  | Some v => Some v
  | None =>
      match s with
      | EmptyString => None
      | String c s' => bsearch pat (Some c) s'
      end
  end.

(** [getCookie(name)] at time [now]: [None] is [undefined].  As for
    [get_cookie], this is what the pattern means for a [name] without
    regular-expression metacharacters. *)
Definition getCookie (name : string) (now : Z) (jar : list cookie) : option string :=
  bsearch (name +:+ "=") None (document_cookie now jar).

(** The text up to its last word character, if it has one. *)
Fixpoint upto_last_word (s : string) : option string :=
  match s with
  | EmptyString => None
  | String c s' =>
      match upto_last_word s' with
      | Some r => Some (String c r)
      | None => if word_char c then Some (String c EmptyString) else None
      end
  end.
End CookieTerms.

(** * Properties of the watchdog *)

Module WatchdogSpec.
Import Watchdog.

#[local] Arguments Nat.modulo : simpl never.

Lemma blinks_mod2 k :
  default "" (blinks !! (k mod 2)%nat) = if Nat.even k then "登录超时" else "!!!!!!!!".
Proof.
  rewrite <- Nat.negb_odd. destruct (Nat.odd k) eqn:Hk.
  - apply Nat.odd_spec in Hk. destruct Hk as [m ->].
    replace ((2 * m + 1) mod 2)%nat with 1%nat; [reflexivity|].
    symmetry. rewrite Nat.add_comm, Nat.mul_comm. apply Nat.Div0.mod_add.
  - assert (He : Nat.even k = true) by (rewrite <- Nat.negb_odd, Hk; reflexivity).
    apply Nat.even_spec in He. destruct He as [m ->].
    replace ((2 * m) mod 2)%nat with 0%nat; [reflexivity|].
    symmetry. rewrite Nat.mul_comm. apply Nat.Div0.mod_mul.
Qed.

Lemma active_refresh now l s :
  last_active s = Num l -> now - l < check_timeout ->
  active now s =
    if bool_decide (path s = "/") then emit Auth_required s
    else Timeout Cactive check_timeout check_timer (emit Auth_required s).
Proof.
  intros Hl Hlt. unfold active. rewrite Hl. simpl.
  destruct (Z.ltb_spec (now - l) check_timeout); [|lia].
  simpl. destruct (bool_decide (path s = "/")); reflexivity.
Qed.

Lemma active_query now l s :
  last_active s = Num l -> auth_timeout < now - l ->
  active now s = set_inflight (inflight s ++ [now]) (emit Auth_getlastactive s).
Proof.
  intros Hl Hlt. unfold active. rewrite Hl. simpl.
  unfold check_timeout, auth_timeout in *.
  destruct (Z.ltb_spec (now - l) (300 * 1000)); [lia|].
  unfold js_gt. simpl.
  destruct (Z.ltb_spec (2500 * 1000) (now - l)); [|lia]. reflexivity.
Qed.

Lemma reply_expired now v s :
  auth_timeout < now - v * 1000 ->
  getlastactive_cb now (Num v) s =
    emit Modal (set_authrenew (Some (length (envs s)))
      (toggletitle (length (envs s))
         (set_envs (envs s ++ [BlinkEnv (htmlTitle s) 0 false]) s))).
Proof.
  intros H. unfold getlastactive_cb, js_gt. simpl.
  destruct (Z.ltb_spec auth_timeout (now - v * 1000)); [reflexivity|lia].
Qed.

Lemma reply_fresh now v s :
  now - v * 1000 <= auth_timeout ->
  getlastactive_cb now (Num v) s =
    Timeout Cactive check_timeout check_timer (set_last_active (Num (v * 1000)) s).
Proof.
  intros H. unfold getlastactive_cb, js_gt. simpl.
  destruct (Z.ltb_spec auth_timeout (now - v * 1000)); [lia|reflexivity].
Qed.

Lemma reply_blinking now v s :
  auth_timeout < now - v * 1000 ->
  blinking (length (envs s)) (htmlTitle s) 0 (getlastactive_cb now (Num v) s).
Proof.
  intros H. rewrite reply_expired by done.
  unfold toggletitle. simpl.
  rewrite lookup_app_r by lia. rewrite Nat.sub_diag. simpl.
  split; simpl.
  - done.
  - rewrite list_lookup_insert_eq; [done|]. rewrite length_app. simpl. lia.
  - apply lookup_insert_eq.
  - reflexivity.
Qed.

Lemma quiet_blinking e old k ev s :
  quiet ev = true -> blinking e old k s ->
  blinking e old (if is_title_fire ev then S k else k) (step ev s).
Proof.
  intros Hq [Hr He Ht Htitle].
  destruct ev as [n|n|n|name n|i v|n|p]; simpl in Hq; try discriminate; simpl.
  - unfold mousemove. destruct (_auth_check_inited s); split; done.
  - unfold keydown. destruct (_auth_check_inited s); split; done.
  - apply bool_decide_eq_true in Hq. subst name.
    rewrite bool_decide_eq_true_2 by done.
    fold title_timer. rewrite Ht. simpl.
    unfold toggletitle. simpl. rewrite He. simpl.
    split; simpl.
    + done.
    + apply list_lookup_insert_eq. by eapply lookup_lt_Some.
    + apply lookup_insert_eq.
    + rewrite blinks_mod2. reflexivity.
  - split; done.
Qed.

Lemma steps_cons ev evs s : steps (ev :: evs) s = steps evs (step ev s).
Proof. reflexivity. Qed.

Lemma steps_app evs1 evs2 s : steps (evs1 ++ evs2) s = steps evs2 (steps evs1 s).
Proof. unfold steps. apply foldl_app. Qed.

Lemma title_fires_cons ev evs :
  title_fires (ev :: evs) = ((if is_title_fire ev then 1 else 0) + title_fires evs)%nat.
Proof.
  unfold title_fires. rewrite filter_cons.
  destruct (is_title_fire ev); simpl; [reflexivity|].
  destruct (decide (false = true)); [discriminate|reflexivity].
Qed.

Lemma quiet_steps_blinking evs : forall e old k s,
  Forall (fun ev => quiet ev = true) evs -> blinking e old k s ->
  blinking e old (k + title_fires evs) (steps evs s).
Proof.
  induction evs as [|ev evs IH]; intros e old k s Hq Hb.
  - simpl. unfold title_fires. simpl. by rewrite Nat.add_0_r.
  - inversion Hq as [|? ? Hev Hevs]; subst.
    rewrite steps_cons, title_fires_cons.
    pose proof (quiet_blinking e old k ev s Hev Hb) as Hb'.
    specialize (IH e old _ _ Hevs Hb').
    destruct (is_title_fire ev); simpl in *.
    + by replace (k + S (title_fires evs))%nat with (S k + title_fires evs)%nat by lia.
    + done.
Qed.

Lemma toggletitle_trace e s : trace (toggletitle e s) = trace s.
Proof.
  unfold toggletitle. destruct (envs s !! e) as [env|]; [|done].
  by destruct (stop_blink env).
Qed.

Lemma toggletitle_check_timer e s :
  timers (toggletitle e s) !! check_timer = timers s !! check_timer.
Proof.
  unfold toggletitle. destruct (envs s !! e) as [env|]; [|done].
  destruct (stop_blink env); simpl; [done|]. by rewrite lookup_insert_ne.
Qed.

Lemma quiet_frame e old k ev s :
  quiet ev = true -> blinking e old k s ->
  trace (step ev s) = trace s /\
  timers (step ev s) !! check_timer = timers s !! check_timer.
Proof.
  intros Hq [Hr He Ht Htitle].
  destruct ev as [n|n|n|name n|i v|n|p]; simpl in Hq; try discriminate; simpl.
  - unfold mousemove. by destruct (_auth_check_inited s).
  - unfold keydown. by destruct (_auth_check_inited s).
  - apply bool_decide_eq_true in Hq. subst name. rewrite Ht. simpl.
    rewrite toggletitle_trace, toggletitle_check_timer. simpl.
    split; [done|]. by rewrite lookup_delete_ne.
  - done.
Qed.

Lemma quiet_steps_frame evs : forall e old k s,
  Forall (fun ev => quiet ev = true) evs -> blinking e old k s ->
  trace (steps evs s) = trace s /\
  timers (steps evs s) !! check_timer = timers s !! check_timer.
Proof.
  induction evs as [|ev evs IH]; intros e old k s Hq Hb; [done|].
  inversion Hq as [|? ? Hev Hevs]; subst. rewrite steps_cons.
  destruct (quiet_frame e old k ev s Hev Hb) as [Htr Htm].
  pose proof (quiet_blinking e old k ev s Hev Hb) as Hb'.
  destruct (IH _ _ _ _ Hevs Hb') as [Htr' Htm'].
  split; congruence.
Qed.

Lemma step_reply j now v s :
  inflight s !! j = Some now ->
  step (Reply j v) s = getlastactive_cb now v (set_inflight (delete j (inflight s)) s).
Proof. intros H. simpl. by rewrite H. Qed.

(** C7 (as the code has it): a tick that finds the client idle for less
    than [check_timeout] issues exactly one [Auth.required] call, opens no
    modal and puts no query in flight; it schedules the next tick exactly
    when the current path is not [/], and leaves the timers alone on [/]. *)
Theorem refresh_tick now l s :
  last_active s = Num l -> now - l < check_timeout ->
  trace (active now s) = trace s ++ [Auth_required] /\
  count Auth_required (trace (active now s)) = S (count Auth_required (trace s)) /\
  count Modal (trace (active now s)) = count Modal (trace s) /\
  inflight (active now s) = inflight s /\
  _authrenew (active now s) = _authrenew s /\
  last_active (active now s) = last_active s /\
  (path s <> "/" ->
   timers (active now s) = <[check_timer := Timer Cactive check_timeout]> (timers s)) /\
  (path s = "/" -> timers (active now s) = timers s).
Proof.
  intros Hl Hlt. rewrite (active_refresh now l s Hl Hlt).
  assert (Hc : forall e, count e (trace s ++ [Auth_required]) =
     (count e (trace s) + count e [Auth_required])%nat).
  { intros e. unfold count. by rewrite filter_app, length_app. }
  case_bool_decide as Hp; simpl; rewrite !Hc; simpl;
    (repeat split; try done; try (unfold count; simpl; lia); try congruence).
Qed.

Lemma refresh_tick_witness :
  let s := steps [Init 0; Navigate "/service"; Mousemove 299000]
                 (fresh "InPanel" "/") in
  last_active s = Num 299000 /\ 300000 - 299000 < check_timeout /\
  trace (active 300000 s) = trace s ++ [Auth_required] /\
  timers (active 300000 s) !! check_timer = Some (Timer Cactive check_timeout).
Proof.
  split; [reflexivity|]. split; [reflexivity|].
  destruct (refresh_tick 300000 299000
              (steps [Init 0; Navigate "/service"; Mousemove 299000]
                     (fresh "InPanel" "/")) eq_refl eq_refl)
    as (Htrace & _ & _ & _ & _ & _ & Htimers & _).
  split; [exact Htrace|]. rewrite Htimers by discriminate.
  apply lookup_insert_eq.
Defined.

(** On the main view the refreshing tick is the last one: the timer that
    fired is not armed again. *)
Lemma refresh_tick_on_main_view_stops :
  let s := steps [Init 0; Mousemove 299000] (fresh "InPanel" "/") in
  last_active s = Num 299000 /\ 300000 - 299000 < check_timeout /\
  timers s !! check_timer = Some (Timer Cactive check_timeout) /\
  timers (step (Fire check_timer 300000) s) !! check_timer = None.
Proof. vm_compute. repeat split. Qed.

(** C4 (as the code has it): the reschedule at the end of a tick happens
    exactly when the tick did not take the server-checking branch and the
    current path is not the main view [/]; on [/] and in the server-checking
    branch the tick leaves the timers as they are. *)
Theorem tick_reschedules_off_main_view now s :
  timers (active now s) =
    if negb (checks_server now s) && negb (bool_decide (path s = "/"))
    then <[check_timer := Timer Cactive check_timeout]> (timers s)
    else timers s.
Proof.
  unfold active, checks_server.
  destruct (js_lt (js_sub (Num now) (last_active s)) (Num check_timeout));
    destruct (js_gt (js_sub (Num now) (last_active s)) (Num auth_timeout));
    simpl; destruct (bool_decide (path s = "/")); reflexivity.
Qed.

(** Away from the main view a tick outside the server-checking branch does
    arm the timer again. *)
Lemma tick_off_main_view_reschedules :
  let s := steps [Init 0; Navigate "/service"; Mousemove 299000]
                 (fresh "InPanel" "/") in
  path s = "/service" /\ checks_server 300000 s = false /\
  timers (step (Fire check_timer 300000) s) !! check_timer
    = Some (Timer Cactive check_timeout).
Proof. vm_compute. repeat split. Qed.

(** C1: a tick that finds the client idle for more than [auth_timeout]
    puts a query in flight; when the server's last-active time is also more
    than [auth_timeout] before that tick, the reply opens the confirmation
    modal, shows the first blink string and arms the title timer for 1000 ms;
    from then on every firing of the title timer shows the other string and
    arms the timer for 1000 ms again, whatever input events come between. *)
Theorem expiry_opens_modal_and_blinks now l v s s' j evs :
  last_active s = Num l -> auth_timeout < now - l ->
  auth_timeout < now - v * 1000 ->
  inflight s' !! j = Some now ->
  Forall (fun ev => quiet ev = true) evs ->
  inflight (active now s) = inflight s ++ [now] /\
  trace (active now s) = trace s ++ [Auth_getlastactive] /\
  trace (step (Reply j (Num v)) s') = trace s' ++ [Modal] /\
  trace (steps evs (step (Reply j (Num v)) s')) = trace s' ++ [Modal] /\
  htmlTitle (steps evs (step (Reply j (Num v)) s')) =
    (if Nat.even (title_fires evs) then "登录超时" else "!!!!!!!!") /\
  timers (steps evs (step (Reply j (Num v)) s')) !! title_timer =
    Some (Timer (Ctoggletitle (length (envs s'))) 1000).
Proof.
  intros Hl Hidle Hsrv Hj Hq.
  rewrite (active_query now l s Hl Hidle).
  split; [reflexivity|]. split; [reflexivity|].
  rewrite (step_reply j now (Num v) s' Hj).
  set (s1 := set_inflight (delete j (inflight s')) s').
  pose proof (reply_blinking now v s1 Hsrv) as Hb.
  assert (Htr : trace (getlastactive_cb now (Num v) s1) = trace s' ++ [Modal]).
  { rewrite reply_expired by done. simpl. by rewrite toggletitle_trace. }
  split; [done|].
  destruct (quiet_steps_frame evs _ _ _ _ Hq Hb) as [Htr' _].
  pose proof (quiet_steps_blinking evs _ _ _ _ Hq Hb) as [_ _ Ht Htitle].
  simpl in Ht, Htitle.
  split; [congruence|]. split; [done|done].
Qed.

Lemma expiry_opens_modal_and_blinks_witness :
  let s := steps [Init 0] (fresh "InPanel" "/service") in
  let evs := [Fire title_timer 3001100; Mousemove 3001500;
              Fire title_timer 3002100; Fire title_timer 3003100] in
  last_active s = Num 0 /\ auth_timeout < 3000000 - 0 /\
  auth_timeout < 3000000 - 100 * 1000 /\
  inflight (active 3000000 s) !! 0%nat = Some 3000000 /\
  Forall (fun ev => quiet ev = true) evs /\
  trace (step (Reply 0 (Num 100)) (active 3000000 s))
    = trace (active 3000000 s) ++ [Modal] /\
  htmlTitle (steps evs (step (Reply 0 (Num 100)) (active 3000000 s)))
    = "!!!!!!!!".
Proof.
  split; [reflexivity|]. split; [reflexivity|]. split; [reflexivity|].
  split; [reflexivity|]. split; [repeat constructor|].
  destruct (expiry_opens_modal_and_blinks 3000000 0 100
              (steps [Init 0] (fresh "InPanel" "/service"))
              (active 3000000 (steps [Init 0] (fresh "InPanel" "/service")))
              0%nat
              [Fire title_timer 3001100; Mousemove 3001500;
               Fire title_timer 3002100; Fire title_timer 3003100]
              eq_refl eq_refl eq_refl eq_refl
              ltac:(repeat constructor))
    as (_ & _ & Hmodal & _ & Htitle & _).
  split; [exact Hmodal|exact Htitle].
Defined.

(** C2: a tick that finds the client idle for more than [auth_timeout]
    puts a query in flight without touching the timers; when the server's
    last-active time is at most [auth_timeout] before that tick, the reply
    stores the server's value (in milliseconds) in [last_active], schedules
    the next tick after [check_timeout], and opens no modal: trace, title and
    [_authrenew] stay as they were. *)
Theorem fresh_server_value_resyncs now l v s s' j :
  last_active s = Num l -> auth_timeout < now - l ->
  now - v * 1000 <= auth_timeout ->
  inflight s' !! j = Some now ->
  inflight (active now s) = inflight s ++ [now] /\
  trace (active now s) = trace s ++ [Auth_getlastactive] /\
  timers (active now s) = timers s /\
  last_active (step (Reply j (Num v)) s') = Num (v * 1000) /\
  timers (step (Reply j (Num v)) s') =
    <[check_timer := Timer Cactive check_timeout]> (timers s') /\
  trace (step (Reply j (Num v)) s') = trace s' /\
  _authrenew (step (Reply j (Num v)) s') = _authrenew s' /\
  htmlTitle (step (Reply j (Num v)) s') = htmlTitle s'.
Proof.
  intros Hl Hidle Hsrv Hj.
  rewrite (active_query now l s Hl Hidle).
  rewrite (step_reply j now (Num v) s' Hj), reply_fresh by done.
  repeat split.
Qed.

Lemma fresh_server_value_resyncs_witness :
  let s := steps [Init 0] (fresh "InPanel" "/service") in
  last_active s = Num 0 /\ auth_timeout < 3000000 - 0 /\
  3000000 - 2000 * 1000 <= auth_timeout /\
  inflight (active 3000000 s) !! 0%nat = Some 3000000 /\
  last_active (step (Reply 0 (Num 2000)) (active 3000000 s)) = Num (2000 * 1000) /\
  trace (step (Reply 0 (Num 2000)) (active 3000000 s)) = trace (active 3000000 s).
Proof.
  split; [reflexivity|]. split; [reflexivity|].
  split; [discriminate|]. split; [reflexivity|].
  destruct (fresh_server_value_resyncs 3000000 0 2000
              (steps [Init 0] (fresh "InPanel" "/service"))
              (active 3000000 (steps [Init 0] (fresh "InPanel" "/service")))
              0%nat eq_refl eq_refl ltac:(discriminate) eq_refl)
    as (_ & _ & _ & Hla & _ & Htrace & _).
  split; [exact Hla|exact Htrace].
Defined.

(** C3: in the state an expiry reply leaves behind (after any number of
    quiet events), the confirmation sets [last_active] to the current time,
    issues one [Auth.required] call and schedules the next tick after
    [check_timeout]; the title timer, when it fires next, restores the title
    the page had before the warning and is not armed again. *)
Theorem confirm_resumes now0 v s0 j evs now t :
  inflight s0 !! j = Some now0 -> auth_timeout < now0 - v * 1000 ->
  Forall (fun ev => quiet ev = true) evs ->
  let s := steps evs (step (Reply j (Num v)) s0) in
  let s' := step (Confirm now) s in
  let s'' := step (Fire title_timer t) s' in
  last_active s' = Num now /\
  trace s' = trace s ++ [Auth_required] /\
  timers s' !! check_timer = Some (Timer Cactive check_timeout) /\
  htmlTitle s'' = htmlTitle s0 /\
  timers s'' !! title_timer = None /\
  timers s'' !! check_timer = Some (Timer Cactive check_timeout) /\
  last_active s'' = Num now /\
  trace s'' = trace s'.
Proof.
  intros Hj Hsrv Hq s.
  assert (Hb : blinking (length (envs s0)) (htmlTitle s0) (title_fires evs) s).
  { subst s. rewrite (step_reply j now0 (Num v) s0 Hj).
    apply (quiet_steps_blinking evs _ _ 0%nat); [done|].
    apply (reply_blinking now0 v (set_inflight _ s0) Hsrv). }
  destruct Hb as [Hr He Ht _].
  simpl. rewrite Hr. unfold authrenew. simpl. rewrite He. simpl.
  rewrite (lookup_insert_ne _ check_timer title_timer) by done.
  rewrite Ht. simpl. unfold toggletitle. simpl.
  rewrite list_lookup_insert_eq by (by eapply lookup_lt_Some). simpl.
  repeat split.
  - apply lookup_insert_eq.
  - apply lookup_delete_eq.
  - rewrite lookup_delete_ne by done. apply lookup_insert_eq.
Qed.

Lemma confirm_resumes_witness :
  let s0 := active 3000000 (steps [Init 0] (fresh "InPanel" "/service")) in
  let evs := [Fire title_timer 3001100; Keydown 3001500] in
  let s' := step (Confirm 3002000) (steps evs (step (Reply 0 (Num 100)) s0)) in
  inflight s0 !! 0%nat = Some 3000000 /\
  auth_timeout < 3000000 - 100 * 1000 /\
  Forall (fun ev => quiet ev = true) evs /\
  last_active s' = Num 3002000 /\
  htmlTitle (step (Fire title_timer 3002100) s') = "InPanel".
Proof.
  split; [reflexivity|]. split; [reflexivity|]. split; [repeat constructor|].
  destruct (confirm_resumes 3000000 100
              (active 3000000 (steps [Init 0] (fresh "InPanel" "/service")))
              0%nat [Fire title_timer 3001100; Keydown 3001500]
              3002000 3002100 eq_refl eq_refl ltac:(repeat constructor))
    as (Hla & _ & _ & Htitle & _).
  split; [exact Hla|exact Htitle].
Defined.

Lemma toggletitle_last_active e s : last_active (toggletitle e s) = last_active s.
Proof.
  unfold toggletitle. destruct (envs s !! e) as [env|]; [|done].
  by destruct (stop_blink env).
Qed.

(** C5 (as far as it holds): the mouse-move handler, the key-down handler
    and the confirmation store the clock reading, so they do not decrease
    [last_active] when the clock reading is not below it; adopting a server
    value that parses to a number does not decrease [last_active] when
    [last_active] is still more than [auth_timeout] older than the tick that
    asked.  A server value that parses to no number is adopted as well: it
    replaces [last_active] by [NaN], which is ordered with no timestamp. *)
Theorem last_active_writes_monotone now s now0 v s2 :
  js_le (last_active s) (Num now) ->
  js_gt (js_sub (Num now0) (last_active s2)) (Num auth_timeout) = true ->
  js_le (last_active s) (last_active (mousemove now s)) /\
  js_le (last_active s) (last_active (keydown now s)) /\
  (forall e, js_le (last_active s) (last_active (authrenew e now s))) /\
  js_le (last_active s2) (last_active (getlastactive_cb now0 (Num v) s2)) /\
  last_active (getlastactive_cb now0 NaN s2) = NaN /\
  ~ js_le (last_active s2) (last_active (getlastactive_cb now0 NaN s2)).
Proof.
  intros Hclock Hstale.
  destruct (last_active s) as [l|] eqn:Hl; [|done]. simpl in Hclock.
  assert (Hrefl : js_le (Num l) (Num l)) by (simpl; lia).
  assert (Hnan : last_active (getlastactive_cb now0 NaN s2) = NaN) by reflexivity.
  split; [|split; [|split; [|split; [|split; [exact Hnan|]]]]];
    [| | | |rewrite Hnan; destruct (last_active s2); simpl; tauto].
  - unfold mousemove. destruct (_auth_check_inited s); simpl; [done|by rewrite Hl].
  - unfold keydown. destruct (_auth_check_inited s); simpl; [done|by rewrite Hl].
  - intros e. unfold authrenew. simpl. by destruct (envs s !! e).
  - destruct (last_active s2) as [l2|] eqn:Hl2; [|done].
    unfold js_gt in Hstale. simpl in Hstale. apply Z.ltb_lt in Hstale.
    destruct (Z_lt_le_dec auth_timeout (now0 - v * 1000)) as [Hexp|Hfresh].
    + rewrite reply_expired by done. simpl. rewrite toggletitle_last_active.
      simpl. rewrite Hl2. simpl. lia.
    + rewrite reply_fresh by done. simpl. lia.
Qed.

Lemma last_active_writes_monotone_witness :
  let s := steps [Init 0] (fresh "InPanel" "/service") in
  js_le (last_active s) (Num 5) /\
  js_gt (js_sub (Num 3000000) (last_active s)) (Num auth_timeout) = true /\
  js_le (last_active s) (last_active (mousemove 5 s)) /\
  js_le (last_active s) (last_active (getlastactive_cb 3000000 (Num 2000) s)) /\
  last_active (getlastactive_cb 3000000 NaN s) = NaN.
Proof.
  split; [simpl; lia|]. split; [reflexivity|].
  destruct (last_active_writes_monotone 5
              (steps [Init 0] (fresh "InPanel" "/service")) 3000000 2000
              (steps [Init 0] (fresh "InPanel" "/service"))
              ltac:(simpl; lia) eq_refl)
    as (Hmouse & _ & _ & Hsrv & Hnan & _).
  split; [exact Hmouse|]. split; [exact Hsrv|exact Hnan].
Defined.

(** An input event between the tick and the server's reply: the reply then
    overwrites the newer [last_active] with the server's older value. *)
Lemma server_value_after_input_decreases :
  let s := steps [Init 0; Fire check_timer 3000000; Mousemove 3000100]
                 (fresh "InPanel" "/service") in
  last_active s = Num 3000100 /\
  last_active (step (Reply 0 (Num 2000)) s) = Num 2000000 /\
  ~ js_le (last_active s) (last_active (step (Reply 0 (Num 2000)) s)).
Proof.
  split; [reflexivity|]. split; [reflexivity|]. vm_compute. intros H. by apply H.
Qed.

End WatchdogSpec.

(** * Properties of the auth gate *)

Module GateSpec.
Import Gate.



(** C10: when the check answers through the success callback with a false
    [authed], the gate clears the loading notice and does nothing else: the
    promise stays pending, the location is not changed and no error message
    is shown; with a true [authed] the promise is resolved. *)
Theorem auth_unauthenticated_success_blocks s :
  deferred (auth (Success false) s) = Pending /\
  path (auth (Success false) s) = path s /\
  messages (auth (Success false) s) =
    messages s ++ [setInfo (Astr msg_loading) (Abool true);
                   setInfo (Abool false) Aundefined] /\
  filter (fun m => is_error m = true) (messages (auth (Success false) s)) =
    filter (fun m => is_error m = true) (messages s) /\
  deferred (auth (Success true) s) = Resolved.
Proof.
  unfold auth, on_success, auth_begin, say, resolve.
  cbn [deferred path messages].
  split; [reflexivity|]. split; [reflexivity|].
  split; [by rewrite <- app_assoc|]. split; [|reflexivity].
  rewrite !filter_app. cbn. by rewrite !app_nil_r.
Qed.

End GateSpec.

(** * Properties of the route table *)

Module RouterSpec.
Import Router.

Lemma find_unmatched {A} (f : A -> bool) (l : list A) :
  existsb f l = false -> find f l = None.
Proof.
  induction l as [|x l IH]; [done|]. cbn.
  destruct (f x); [done|]. exact IH.
Qed.

Lemma config_whens tp v : whens (config tp v) = entries tp v.
Proof. reflexivity. Qed.

(** C9: a path that no [when] pattern matches resolves to the redirect of
    the [otherwise] entry, [/sorry], never to the absence of a route; the
    redirect lands on the page registered for [/sorry]. *)
Theorem unmatched_path_falls_back tp v p :
  registered tp v p = false ->
  parseRoute (config tp v) p = RedirectTo "/sorry" /\
  navigate (config tp v) p = Render (_r tp v "sorry" "SorryCtrl" false).
Proof.
  intros H. unfold registered in H.
  assert (Hp : parseRoute (config tp v) p = RedirectTo "/sorry").
  { unfold parseRoute. rewrite config_whens, (find_unmatched _ _ H). reflexivity. }
  split; [exact Hp|]. unfold navigate. rewrite Hp.
  vm_compute. reflexivity.
Qed.

Lemma unmatched_path_falls_back_witness :
  registered "/static" "1606978800" "/service/unknown" = false /\
  parseRoute (config "/static" "1606978800") "/service/unknown"
    = RedirectTo "/sorry".
Proof.
  split; [vm_compute; reflexivity|].
  apply (unmatched_path_falls_back "/static" "1606978800" "/service/unknown").
  vm_compute. reflexivity.
Defined.

End RouterSpec.

(** * Properties of the cookie helpers *)

Module CookieSpec.
Import Cookie.

Ltac each_ascii c :=
  destruct c as [[] [] [] [] [] [] [] []].

Lemma hex_high c : hex_value (hex_digit (code c / 16)) = Some (code c / 16)%nat.
Proof. each_ascii c; vm_compute; reflexivity. Qed.

Lemma hex_low c : hex_value (hex_digit (code c mod 16)) = Some (code c mod 16)%nat.
Proof. each_ascii c; vm_compute; reflexivity. Qed.

Lemma unreserved_ascii c : unreserved c = true -> (code c < 128)%nat.
Proof. each_ascii c; vm_compute; intros H; try discriminate H; lia. Qed.

Lemma unreserved_not_percent c : unreserved c = true -> Ascii.eqb c "%" = false.
Proof. each_ascii c; vm_compute; intros H; try discriminate H; reflexivity. Qed.

Lemma chr_code c : chr (code c) = c.
Proof. apply ascii_nat_embedding. Qed.

Lemma unescape_encode s : unescape (percent_encode s) = Some (items s).
Proof.
  induction s as [|c s IH]; [reflexivity|].
  cbn [percent_encode items]. destruct (unreserved c) eqn:Hu.
  - cbn [unescape]. rewrite (unreserved_not_percent c Hu), IH. reflexivity.
  - cbn [unescape]. rewrite Ascii.eqb_refl, hex_high, hex_low, IH.
    rewrite <- (Nat.div_mod_eq (code c) 16). reflexivity.
Qed.

Lemma second_ok_high b1 b2 : second_ok b1 b2 = true -> (128 <= b2)%nat.
Proof.
  unfold second_ok, continuation.
  repeat match goal with |- context [(?a =? ?b)%nat] => destruct (a =? b)%nat end;
    intros H; apply andb_true_iff in H as [H _]; apply Nat.leb_le in H; lia.
Qed.

Lemma continuation_high b : continuation b = true -> (128 <= b)%nat.
Proof.
  unfold continuation. intros H. apply andb_true_iff in H as [H _].
  by apply Nat.leb_le in H.
Qed.

Lemma high_escaped c : (128 <= code c)%nat -> unreserved c = false.
Proof.
  intros H. destruct (unreserved c) eqn:Hu; [|reflexivity].
  apply unreserved_ascii in Hu. lia.
Qed.

Lemma lead_high b :
  lead2 b || lead3 b || lead4 b = true -> (128 <= b)%nat /\ (b <? 128)%nat = false.
Proof.
  unfold lead2, lead3, lead4. intros H.
  assert (194 <= b)%nat.
  { repeat (apply orb_true_iff in H as [H|H]);
      apply andb_true_iff in H as [H _]; apply Nat.leb_le in H; lia. }
  split; [lia|]. apply Nat.ltb_ge. lia.
Qed.

Lemma lead3_not2 b : lead3 b = true -> lead2 b = false.
Proof.
  unfold lead2, lead3. intros H. apply andb_true_iff in H as [H _].
  apply Nat.leb_le in H. apply andb_false_iff. right. apply Nat.leb_gt. lia.
Qed.

Lemma lead4_not23 b : lead4 b = true -> lead2 b = false /\ lead3 b = false.
Proof.
  unfold lead2, lead3, lead4. intros H. apply andb_true_iff in H as [H _].
  apply Nat.leb_le in H.
  split; apply andb_false_iff; right; apply Nat.leb_gt; lia.
Qed.

Lemma assemble_items s : utf8 s -> assemble (items s) = Some s.
Proof.
  induction 1 as [|c s Hc _ IH|c1 c2 s H1 H2 _ IH|c1 c2 c3 s H1 H2 H3 _ IH
                  |c1 c2 c3 c4 s H1 H2 H3 H4 _ IH].
  - reflexivity.
  - cbn [items]. destruct (unreserved c).
    + cbn [assemble]. by rewrite IH.
    + cbn [assemble]. apply Nat.ltb_lt in Hc. rewrite Hc, IH, chr_code. reflexivity.
  - cbn [items].
    destruct (lead_high (code c1)) as [Hh Hlt]; [by rewrite H1|].
    rewrite (high_escaped c1 Hh), (high_escaped c2 (second_ok_high _ _ H2)).
    cbn [assemble]. rewrite Hlt, H1, H2, IH, !chr_code. reflexivity.
  - cbn [items].
    destruct (lead_high (code c1)) as [Hh Hlt]; [by rewrite H1, orb_true_r|].
    rewrite (high_escaped c1 Hh), (high_escaped c2 (second_ok_high _ _ H2)),
      (high_escaped c3 (continuation_high _ H3)).
    cbn [assemble]. rewrite Hlt, (lead3_not2 _ H1), H1, H2, H3, IH, !chr_code.
    reflexivity.
  - cbn [items].
    destruct (lead_high (code c1)) as [Hh Hlt]; [by rewrite H1, orb_true_r|].
    destruct (lead4_not23 _ H1) as [Hn2 Hn3].
    rewrite (high_escaped c1 Hh), (high_escaped c2 (second_ok_high _ _ H2)),
      (high_escaped c3 (continuation_high _ H3)),
      (high_escaped c4 (continuation_high _ H4)).
    cbn [assemble]. rewrite Hlt, Hn2, Hn3, H1, H2, H3, H4, IH, !chr_code.
    reflexivity.
Qed.

Lemma decode_encode s : utf8 s -> decodeURIComponent (percent_encode s) = Some s.
Proof.
  intros H. unfold decodeURIComponent. rewrite unescape_encode. cbn.
  by apply assemble_items.
Qed.

(** Strings *)

Lemma sapp_cons c (s t : string) : String c s +:+ t = String c (s +:+ t).
Proof. reflexivity. Qed.

Lemma sapp_nil_l (t : string) : EmptyString +:+ t = t.
Proof. reflexivity. Qed.

Ltac str := rewrite ?sapp_cons, ?sapp_nil_l; simpl.

Lemma sapp_nil_r (s : string) : s +:+ EmptyString = s.
Proof. induction s as [|c s IH]; [reflexivity|]. str. by rewrite IH. Qed.

Lemma sapp_assoc (a b c : string) : (a +:+ b) +:+ c = a +:+ (b +:+ c).
Proof. induction a as [|x a IH]; [reflexivity|]. str. by rewrite IH. Qed.

Lemma sapp_length (a b : string) :
  String.length (a +:+ b) = (String.length a + String.length b)%nat.
Proof. induction a as [|x a IH]; [reflexivity|]. str. by rewrite IH. Qed.

Lemma all_app p (a b : string) : all p (a +:+ b) = all p a && all p b.
Proof.
  induction a as [|x a IH]; [reflexivity|]. str. rewrite IH.
  by rewrite andb_assoc.
Qed.

Lemma all_impl (p q : ascii -> bool) s :
  (forall c, p c = true -> q c = true) -> all p s = true -> all q s = true.
Proof.
  intros Hpq. induction s as [|c s IH]; [done|]. simpl.
  intros H. apply andb_true_iff in H as [Hc Hs].
  by rewrite (Hpq c Hc), (IH Hs).
Qed.

Lemma is_not_eqb d c : is_not d c = true -> Ascii.eqb c d = false.
Proof. unfold is_not. by destruct (Ascii.eqb c d). Qed.

Lemma split_on_plain d a : all (is_not d) a = true -> split_on d a = [a].
Proof.
  induction a as [|c a IH]; [reflexivity|]. simpl.
  intros H. apply andb_true_iff in H as [Hc Ha].
  by rewrite (is_not_eqb d c Hc), (IH Ha).
Qed.

Lemma split_on_app d a b :
  all (is_not d) a = true -> split_on d (a +:+ String d b) = a :: split_on d b.
Proof.
  induction a as [|c a IH].
  - intros _. str. by rewrite Ascii.eqb_refl.
  - str. intros H. apply andb_true_iff in H as [Hc Ha].
    by rewrite (is_not_eqb d c Hc), (IH Ha).
Qed.

Lemma split_first_app d a b :
  all (is_not d) a = true -> split_first d (a +:+ String d b) = (a, Some b).
Proof.
  induction a as [|c a IH].
  - intros _. str. by rewrite Ascii.eqb_refl.
  - str. intros H. apply andb_true_iff in H as [Hc Ha].
    by rewrite (is_not_eqb d c Hc), (IH Ha).
Qed.

Lemma ltrim_solid c s : solid c = true -> ltrim (String c s) = String c s.
Proof. unfold solid. simpl. by destruct (is_wsp c). Qed.

Lemma rtrim_all_solid s : all solid s = true -> rtrim s = s.
Proof.
  induction s as [|c s IH]; [reflexivity|]. simpl.
  intros H. apply andb_true_iff in H as [Hc Hs]. rewrite (IH Hs).
  unfold solid in Hc. destruct s; [|reflexivity]. by destruct (is_wsp c).
Qed.

Lemma trim_all_solid s : all solid s = true -> trim s = s.
Proof.
  intros H. unfold trim. destruct s as [|c s]; [reflexivity|].
  pose proof H as H'. simpl in H'. apply andb_true_iff in H' as [Hc _].
  rewrite (ltrim_solid c s Hc). by apply rtrim_all_solid.
Qed.

Lemma rtrim_length s : (String.length (rtrim s) <= String.length s)%nat.
Proof.
  induction s as [|c s IH]; [done|]. simpl.
  destruct (rtrim s); [destruct (is_wsp c)|]; simpl in *; lia.
Qed.

Lemma ltrim_length s : (String.length (ltrim s) <= String.length s)%nat.
Proof.
  induction s as [|c s IH]; [done|]. simpl.
  destruct (is_wsp c); simpl; lia.
Qed.

Lemma trim_length s : (String.length (trim s) <= String.length s)%nat.
Proof.
  unfold trim. pose proof (rtrim_length (ltrim s)). pose proof (ltrim_length s). lia.
Qed.

Lemma encode_length s :
  (String.length s <= String.length (percent_encode s))%nat.
Proof.
  induction s as [|c s IH]; [done|]. simpl.
  destruct (unreserved c); simpl; lia.
Qed.

(** Encoded text *)

Lemma hex_digit_unreserved n : unreserved (hex_digit n) = true.
Proof. do 16 (destruct n as [|n]; [reflexivity|]). reflexivity. Qed.

Lemma encode_chars s : all enc_char (percent_encode s) = true.
Proof.
  induction s as [|c s IH]; [reflexivity|]. cbn [percent_encode].
  destruct (unreserved c) eqn:Hu; cbn [all]; rewrite IH; unfold enc_char.
  - by rewrite Hu.
  - by rewrite !hex_digit_unreserved.
Qed.

Lemma enc_char_plain c :
  enc_char c = true ->
  solid c = true /\ is_not ";" c = true /\ is_not " " c = true.
Proof. each_ascii c; vm_compute; intros H; try discriminate H; done. Qed.

Lemma encode_solid s : all solid (percent_encode s) = true.
Proof. eapply all_impl; [|apply encode_chars]. intros c H. by apply enc_char_plain. Qed.

Lemma encode_no_semicolon s : all (is_not ";") (percent_encode s) = true.
Proof. eapply all_impl; [|apply encode_chars]. intros c H. by apply enc_char_plain. Qed.

Lemma encode_no_space s : all (is_not " ") (percent_encode s) = true.
Proof. eapply all_impl; [|apply encode_chars]. intros c H. by apply enc_char_plain. Qed.

(** Plain names *)

Lemma name_char_plain c :
  name_char c = true ->
  solid c = true /\ is_not ";" c = true /\ is_not " " c = true /\ is_not "=" c = true.
Proof. each_ascii c; vm_compute; intros H; try discriminate H; done. Qed.

Lemma name_ok_inv name :
  name_ok name = true ->
  name <> EmptyString /\ all solid name = true /\ all (is_not ";") name = true
  /\ all (is_not " ") name = true /\ all (is_not "=") name = true.
Proof.
  unfold name_ok. intros H. apply andb_true_iff in H as [Hne Hall].
  split; [by destruct name|].
  repeat split; (eapply all_impl; [|exact Hall]); intros c Hc;
    by apply name_char_plain.
Qed.

(** Dates as [toGMTString] writes them *)

Lemma date_char_no_semicolon c : date_char c = true -> is_not ";" c = true.
Proof. each_ascii c; vm_compute; intros H; try discriminate H; done. Qed.

Lemma weekday_chars i : all date_char (nth i weekdays EmptyString) = true.
Proof. do 7 (destruct i as [|i]; [reflexivity|]). by destruct i. Qed.

Lemma month_chars i : all date_char (nth i months EmptyString) = true.
Proof. do 12 (destruct i as [|i]; [reflexivity|]). by destruct i. Qed.

Lemma digit_char n : date_char (digit n) = true.
Proof.
  unfold digit. generalize (Z.to_nat n). intros k.
  do 10 (destruct k as [|k]; [reflexivity|]). reflexivity.
Qed.

Lemma pad2_chars n : all date_char (pad2 n) = true.
Proof. unfold pad2. cbn [all]. by rewrite !digit_char. Qed.

Lemma pad4_chars n : all date_char (pad4 n) = true.
Proof. unfold pad4. by rewrite all_app, !pad2_chars. Qed.

Lemma toGMTString_chars t : all date_char (toGMTString t) = true.
Proof.
  unfold toGMTString. destruct (civil_from_days _) as [[y m] d].
  rewrite !all_app, weekday_chars, month_chars, pad4_chars, !pad2_chars.
  reflexivity.
Qed.

Lemma toGMTString_no_semicolon t : all (is_not ";") (toGMTString t) = true.
Proof.
  eapply all_impl; [|apply toGMTString_chars]. apply date_char_no_semicolon.
Qed.

Lemma keeps_app a b : keeps b -> keeps (a +:+ b).
Proof.
  intros [Hb Hne]. induction a as [|c a [IH1 IH2]]; [done|].
  split; [|done]. rewrite sapp_cons. cbn [rtrim]. rewrite IH1.
  destruct (a +:+ b); [done|reflexivity].
Qed.

Lemma toGMTString_trim t : trim (toGMTString t) = toGMTString t.
Proof.
  unfold trim.
  assert (Hl : ltrim (toGMTString t) = toGMTString t).
  { unfold toGMTString. destruct (civil_from_days _) as [[y m] d].
    generalize (Z.to_nat ((t / 1000 / 86400 + 4) mod 7)). intros i.
    do 7 (destruct i as [|i]; [reflexivity|]). by destruct i. }
  rewrite Hl. unfold toGMTString. destruct (civil_from_days _) as [[y m] d].
  repeat apply keeps_app. by split.
Qed.

(** The calendar: the browser reads back the date [toGMTString] wrote *)

Lemma civil_round_trip z y m d :
  civil_from_days z = (y, m, d) ->
  days_from_civil y m d = z /\ 1 <= m <= 12 /\ 1 <= d <= 31
  /\ (z + 719468) / 146097 * 400 <= y <= (z + 719468) / 146097 * 400 + 400.
Proof.
  unfold civil_from_days, days_from_civil. cbv zeta.
  set (era := (z + 719468) / 146097).
  set (doe := z + 719468 - era * 146097).
  assert (Hdoe : 0 <= doe < 146097).
  { subst doe era. Z.to_euclidean_division_equations. lia. }
  set (yoe := (doe - doe / 1460 + doe / 36524 - doe / 146096) / 365).
  assert (Hyoe : 0 <= yoe < 400).
  { subst yoe. Z.to_euclidean_division_equations. lia. }
  set (doy := doe - (365 * yoe + yoe / 4 - yoe / 100)).
  assert (Hdoy : 0 <= doy <= 365).
  { subst doy yoe. Z.to_euclidean_division_equations. lia. }
  set (mp := (5 * doy + 2) / 153).
  assert (Hmp : 0 <= mp <= 11).
  { subst mp. Z.to_euclidean_division_equations. lia. }
  set (dd := doy - (153 * mp + 2) / 5 + 1).
  assert (Hdd : 1 <= dd <= 31).
  { subst dd mp. Z.to_euclidean_division_equations. lia. }
  intros H. injection H as Hy Hm Hd. subst d. fold dd.
  rewrite Hm in Hy.
  assert (Hmr : 1 <= m <= 12 /\ (if 2 <? m then m - 3 else m + 9) = mp).
  { rewrite <- Hm. destruct (Z.ltb_spec mp 10).
    - destruct (Z.ltb_spec 2 (mp + 3)); lia.
    - destruct (Z.ltb_spec 2 (mp - 9)); lia. }
  destruct Hmr as (Hm1 & Hm2). rewrite Hm2.
  assert (Hy' : (if m <=? 2 then y - 1 else y) = yoe + era * 400).
  { rewrite <- Hy. destruct (m <=? 2); lia. }
  rewrite Hy'.
  assert (Hera : (yoe + era * 400) / 400 = era).
  { Z.to_euclidean_division_equations. lia. }
  rewrite Hera.
  replace (yoe + era * 400 - era * 400) with yoe by lia.
  split; [|split; [done|split; [done|]]].
  - subst dd doy doe. lia.
  - rewrite <- Hy. destruct (m <=? 2); lia.
Qed.

Lemma digit_value k :
  0 <= k <= 9 -> is_digit (digit k) = true /\ Z.of_nat (code (digit k) - 48) = k.
Proof.
  intros H.
  assert (Hk : k = 0 \/ k = 1 \/ k = 2 \/ k = 3 \/ k = 4 \/ k = 5 \/ k = 6
               \/ k = 7 \/ k = 8 \/ k = 9) by lia.
  repeat (destruct Hk as [Hk|Hk]; [subst k; split; reflexivity|]).
  subst k. split; reflexivity.
Qed.

Lemma number_two a b :
  0 <= a <= 9 -> 0 <= b <= 9 ->
  number 0 (String (digit a) (String (digit b) EmptyString)) = Some (10 * a + b).
Proof.
  intros Ha Hb. destruct (digit_value a Ha) as [Da Va].
  destruct (digit_value b Hb) as [Db Vb].
  cbn [number]. rewrite Da, Db, Va, Vb. f_equal; lia.
Qed.

Lemma number_four a b c d :
  0 <= a <= 9 -> 0 <= b <= 9 -> 0 <= c <= 9 -> 0 <= d <= 9 ->
  number 0 (String (digit a) (String (digit b) (String (digit c)
             (String (digit d) EmptyString))))
  = Some (1000 * a + 100 * b + 10 * c + d).
Proof.
  intros Ha Hb Hc Hd. destruct (digit_value a Ha) as [Da Va].
  destruct (digit_value b Hb) as [Db Vb]. destruct (digit_value c Hc) as [Dc Vc].
  destruct (digit_value d Hd) as [Dd Vd].
  cbn [number]. rewrite Da, Db, Dc, Dd, Va, Vb, Vc, Vd. f_equal; lia.
Qed.

Lemma two_digits n : 0 <= n < 100 -> 10 * (n / 10 mod 10) + n mod 10 = n.
Proof. intros H. Z.to_euclidean_division_equations. lia. Qed.

Lemma four_digits n :
  0 <= n < 10000 ->
  1000 * (n / 100 / 10 mod 10) + 100 * (n / 100 mod 10) + 10 * (n / 10 mod 10)
  + n mod 10 = n.
Proof. intros H. Z.to_euclidean_division_equations. lia. Qed.

Lemma weekday_letters i :
  (i < 7)%nat ->
  exists a b c, nth i weekdays EmptyString = String a (String b (String c EmptyString)).
Proof.
  intros H. do 7 (destruct i as [|i]; [by eexists _, _, _|]). lia.
Qed.

Lemma month_letters m :
  1 <= m <= 12 ->
  exists a b c,
    nth (Z.to_nat (m - 1)) months EmptyString = String a (String b (String c EmptyString))
    /\ index_of (String a (String b (String c EmptyString))) months = Some (m - 1).
Proof.
  intros H.
  assert (Hm : m = 1 \/ m = 2 \/ m = 3 \/ m = 4 \/ m = 5 \/ m = 6 \/ m = 7
               \/ m = 8 \/ m = 9 \/ m = 10 \/ m = 11 \/ m = 12) by lia.
  repeat (destruct Hm as [Hm|Hm]; [subst m; by eexists _, _, _|]).
  subst m. by eexists _, _, _.
Qed.

Lemma parse_toGMTString t :
  four_digit_years t -> parse_date (toGMTString t) = Some (t / 1000 * 1000).
Proof.
  intros [Ht0 Ht1]. unfold toGMTString.
  set (secs := t / 1000). set (days := secs / 86400). set (rest := secs mod 86400).
  assert (Hsecs : 0 <= secs < 240000000000) by (subst secs; Z.to_euclidean_division_equations; lia).
  assert (Hdays : 0 <= days < 2777778) by (subst days; Z.to_euclidean_division_equations; lia).
  assert (Hrest : 0 <= rest < 86400) by (subst rest; Z.to_euclidean_division_equations; lia).
  destruct (civil_from_days days) as [[y m] d] eqn:Hciv.
  destruct (civil_round_trip days y m d Hciv) as (Hback & Hm & Hd & Hy).
  assert (Hy' : 0 <= y <= 9999).
  { revert Hy. Z.to_euclidean_division_equations. lia. }
  destruct (weekday_letters (Z.to_nat ((days + 4) mod 7))) as (w1 & w2 & w3 & ->).
  { Z.to_euclidean_division_equations. lia. }
  destruct (month_letters m Hm) as (m1 & m2 & m3 & -> & Hidx).
  unfold parse_date, pad4, pad2.
  cbv beta iota delta [String.append].
  cbn [String.length Nat.eqb negb String.substring].
  rewrite Hidx.
  rewrite !number_two, number_four;
    try (Z.to_euclidean_division_equations; lia).
  cbn [mbind option_bind].
  rewrite (four_digits y), (two_digits d), (two_digits (rest / 3600)),
    (two_digits (rest / 60 mod 60)), (two_digits (rest mod 60));
    try (Z.to_euclidean_division_equations; lia).
  replace (m - 1 + 1) with m by lia. rewrite Hback. f_equal.
  subst rest days. Z.to_euclidean_division_equations. lia.
Qed.

(** What the browser makes of the strings the helpers assign *)

Lemma parse_written now name v D e :
  name_ok name = true -> all (is_not ";") v = true ->
  (String.length name + String.length (trim v) <= 4096)%nat ->
  all (is_not ";") D = true -> trim D = D -> parse_date D = Some e ->
  parse_cookie now (name +:+ "=" +:+ v +:+ ";expires=" +:+ D)
  = Some (Cookie name (trim v) (Until e)).
Proof.
  intros Hname Hv Hlen HD HtD He.
  destruct (name_ok_inv name Hname) as (Hne & Hsolid & Hsemi & _ & Heq).
  unfold parse_cookie.
  replace (name +:+ "=" +:+ v +:+ ";expires=" +:+ D)
    with ((name +:+ "=" +:+ v) +:+ String ";" ("expires=" +:+ D))
    by (by rewrite !sapp_assoc).
  rewrite split_on_app by (by rewrite !all_app, Hsemi, Hv).
  rewrite split_on_plain by (rewrite all_app; by rewrite HD).
  replace (name +:+ "=" +:+ v) with (name +:+ String "=" v) by done.
  rewrite split_first_app by done.
  rewrite (trim_all_solid name Hsolid).
  destruct (String.eqb_spec name EmptyString) as [->|_]; [done|].
  destruct (Nat.ltb_spec 4096 (String.length name + String.length (trim v)));
    [lia|].
  cbn [attributes].
  replace ("expires=" +:+ D) with ("expires" +:+ String "=" D) by done.
  rewrite split_first_app by done.
  change (default EmptyString (Some D)) with D. rewrite HtD.
  replace (lower (trim "expires")) with "expires" by reflexivity.
  replace (String.eqb "expires" "expires") with true by reflexivity.
  rewrite He. reflexivity.
Qed.

(** The regular expression on a rendered jar *)

Lemma starts_with_app p r : starts_with p (p +:+ r) = Some r.
Proof.
  induction p as [|c p IH]; [reflexivity|].
  rewrite sapp_cons. cbn [starts_with]. by rewrite Ascii.eqb_refl.
Qed.

Lemma starts_with_other a b r :
  all (is_not "=") a = true -> all (is_not "=") b = true -> a <> b ->
  starts_with (a +:+ "=") (b +:+ "=" +:+ r) = None.
Proof.
  revert b. induction a as [|c a IH]; intros [|d b] Ha Hb Hne.
  - done.
  - cbn in Hb. apply andb_true_iff in Hb as [Hd _].
    rewrite !sapp_cons, !sapp_nil_l. cbn [starts_with].
    apply is_not_eqb in Hd. rewrite Ascii.eqb_sym, Hd. reflexivity.
  - cbn in Ha. apply andb_true_iff in Ha as [Hc _].
    rewrite !sapp_cons, !sapp_nil_l. cbn [starts_with].
    by rewrite (is_not_eqb _ _ Hc).
  - cbn in Ha, Hb. apply andb_true_iff in Ha as [_ Ha].
    apply andb_true_iff in Hb as [_ Hb].
    rewrite !sapp_cons. cbn [starts_with].
    destruct (Ascii.eqb_spec c d) as [->|]; [|reflexivity].
    apply IH; [done|done|congruence].
Qed.

Lemma starts_with_empty a : starts_with (a +:+ "=") EmptyString = None.
Proof. by destruct a. Qed.

Lemma capture_app v tail :
  all (is_not ";") v = true ->
  tail = EmptyString \/ (exists r, tail = String ";" r) ->
  capture (v +:+ tail) = v.
Proof.
  intros Hv Htail. induction v as [|c v IH].
  - rewrite sapp_nil_l. by destruct Htail as [->|[r ->]].
  - cbn in Hv. apply andb_true_iff in Hv as [Hc Hv].
    rewrite sapp_cons. cbn [capture]. by rewrite (is_not_eqb _ _ Hc), (IH Hv).
Qed.

Lemma scan_spaceless pat x : all (is_not " ") x = true -> scan pat x = None.
Proof.
  induction x as [|c x IH]; [done|]. cbn.
  intros H. apply andb_true_iff in H as [Hc Hx].
  by rewrite (is_not_eqb _ _ Hc), (IH Hx).
Qed.

Lemma scan_skip name x rest :
  all (is_not " ") x = true ->
  scan (name +:+ "=") (x +:+ "; " +:+ rest) = regexp_exec name rest.
Proof.
  induction x as [|c x IH].
  - intros _. reflexivity.
  - cbn [all]. intros H. apply andb_true_iff in H as [Hc Hx].
    rewrite sapp_cons. cbn [scan]. by rewrite (is_not_eqb _ _ Hc), (IH Hx).
Qed.

Lemma render_spaceless d : tidy_cookie d = true -> all (is_not " ") (render d) = true.
Proof.
  unfold tidy_cookie, render. intros H.
  apply andb_true_iff in H as [H Hv]. apply andb_true_iff in H as [Hn _].
  by rewrite !all_app, Hn, Hv.
Qed.

Lemma tidy_name d : tidy_cookie d = true -> all (is_not "=") (c_name d) = true.
Proof.
  unfold tidy_cookie. intros H.
  apply andb_true_iff in H as [H _]. by apply andb_true_iff in H as [_ H].
Qed.

Lemma join_cons x y l : join (x :: y :: l) = x +:+ "; " +:+ join (y :: l).
Proof. reflexivity. Qed.

Lemma exec_other_alone name d :
  all (is_not "=") name = true -> other name d ->
  regexp_exec name (render d) = None.
Proof.
  intros Hname [Ht Hne]. unfold regexp_exec.
  unfold render at 1. rewrite starts_with_other by (by try apply tidy_name).
  apply scan_spaceless. by apply render_spaceless.
Qed.

Lemma exec_other_skip name d rest :
  all (is_not "=") name = true -> other name d ->
  regexp_exec name (render d +:+ "; " +:+ rest) = regexp_exec name rest.
Proof.
  intros Hname [Ht Hne]. unfold regexp_exec at 1.
  unfold render at 1.
  rewrite (sapp_assoc (c_name d) ("=" +:+ c_value d)).
  rewrite (sapp_assoc "=" (c_value d)).
  rewrite starts_with_other by (by try apply tidy_name).
  apply scan_skip. by apply render_spaceless.
Qed.

Lemma exec_not_found name l :
  all (is_not "=") name = true -> Forall (other name) l ->
  regexp_exec name (join (render <$> l)) = None.
Proof.
  intros Hname. induction 1 as [|d l Hd Hl IH].
  - unfold regexp_exec. cbn. by rewrite starts_with_empty.
  - destruct l as [|d' l].
    + cbn. by apply exec_other_alone.
    + rewrite !fmap_cons, join_cons, exec_other_skip by done.
      by rewrite !fmap_cons in IH.
Qed.

Lemma exec_found name c l :
  all (is_not "=") name = true ->
  c_name c = name -> all (is_not ";") (c_value c) = true ->
  Forall (fun d => d = c \/ other name d) l -> c ∈ l ->
  regexp_exec name (join (render <$> l)) = Some (c_value c).
Proof.
  intros Hname Hc Hv. induction 1 as [|d l Hd Hl IH]; intros Hin.
  - by apply elem_of_nil in Hin.
  - destruct Hd as [->|Hd].
    + unfold regexp_exec. destruct l as [|d' l].
      * cbn [fmap list_fmap join]. unfold render. rewrite Hc.
        rewrite <- (sapp_assoc name "=" (c_value c)), starts_with_app.
        rewrite <- (sapp_nil_r (c_value c)) at 1. rewrite capture_app; auto.
      * rewrite !fmap_cons, join_cons. unfold render at 1. rewrite Hc.
        rewrite (sapp_assoc name ("=" +:+ c_value c)).
        rewrite (sapp_assoc "=" (c_value c)).
        rewrite <- (sapp_assoc name "="), starts_with_app.
        rewrite capture_app; eauto.
    + destruct l as [|d' l].
      * apply list_elem_of_singleton in Hin. subst d.
        destruct Hd as [_ Hd]. done.
      * rewrite !fmap_cons, join_cons, exec_other_skip by done.
        rewrite !fmap_cons in IH. apply IH.
        apply elem_of_cons in Hin as [->|Hin]; [|done].
        destruct Hd as [_ Hd]. done.
Qed.

(** The store *)

Lemma elem_of_store_self c jar : c ∈ store c jar.
Proof.
  induction jar as [|d jar IH]; cbn; [by apply list_elem_of_singleton|].
  destruct (String.eqb (c_name d) (c_name c)); by constructor.
Qed.

Lemma elem_of_store c jar d :
  NoDup (c_name <$> jar) -> d ∈ store c jar ->
  d = c \/ (d ∈ jar /\ c_name d <> c_name c).
Proof.
  induction jar as [|x jar IH]; cbn [store]; intros Hnd Hin.
  - left. by apply list_elem_of_singleton in Hin.
  - rewrite fmap_cons in Hnd. apply NoDup_cons in Hnd as [Hx Hnd].
    destruct (String.eqb_spec (c_name x) (c_name c)) as [Heq|Hne].
    + apply elem_of_cons in Hin as [->|Hin]; [by left|]. right.
      split; [by constructor|]. intros Hd. apply Hx. rewrite Heq, <- Hd.
      by apply list_elem_of_fmap_2.
    + apply elem_of_cons in Hin as [->|Hin].
      * right. split; [by constructor|done].
      * destruct (IH Hnd Hin) as [->|[Hd Hdn]]; [by left|].
        right. split; [by constructor|done].
Qed.

Lemma store_names_NoDup c jar :
  NoDup (c_name <$> jar) -> NoDup (c_name <$> store c jar).
Proof.
  induction jar as [|x jar IH]; cbn [store]; intros Hnd.
  - cbn. apply NoDup_singleton.
  - rewrite fmap_cons in Hnd. apply NoDup_cons in Hnd as [Hx Hnd].
    destruct (String.eqb_spec (c_name x) (c_name c)) as [Heq|Hne].
    + rewrite fmap_cons, <- Heq. by apply NoDup_cons.
    + rewrite fmap_cons. apply NoDup_cons. split; [|by apply IH].
      intros Hin. apply list_elem_of_fmap in Hin as (d & Hd & Hin).
      destruct (elem_of_store c jar d Hnd Hin) as [->|[Hdj _]]; [done|].
      apply Hx. rewrite Hd. by apply list_elem_of_fmap_2.
Qed.

Lemma filter_names_NoDup (P : cookie -> Prop) `{!forall d, Decision (P d)} jar :
  NoDup (c_name <$> jar) -> NoDup (c_name <$> filter P jar).
Proof.
  intros Hnd. eapply sublist_NoDup; [exact Hnd|].
  apply fmap_sublist, sublist_filter.
Qed.

Lemma live_later now later d : now <= later -> live later d = true -> live now d = true.
Proof.
  unfold live. destruct (c_expires d) as [| |e]; try done.
  intros Hle H. apply Z.ltb_lt in H. apply Z.ltb_lt. lia.
Qed.

(** The helpers *)

Lemma get_found name c t jar :
  all (is_not "=") name = true ->
  c_name c = name -> all (is_not ";") (c_value c) = true ->
  live t c = true -> c ∈ jar ->
  (forall d, d ∈ jar -> d = c \/ other name d) ->
  regexp_exec name (document_cookie t jar) = Some (c_value c).
Proof.
  intros Hname Hc Hv Hlive Hin Hall. unfold document_cookie.
  apply exec_found; try done.
  - apply Forall_forall. intros d Hd.
    apply list_elem_of_filter in Hd as [_ Hd]. by apply Hall.
  - by apply list_elem_of_filter.
Qed.

Lemma get_absent name t jar :
  all (is_not "=") name = true ->
  (forall d, d ∈ jar -> other name d) ->
  get_cookie name t jar = Normal None.
Proof.
  intros Hname Hall. unfold get_cookie, document_cookie.
  rewrite exec_not_found; [done|done|].
  apply Forall_forall. intros d Hd.
  apply list_elem_of_filter in Hd as [_ Hd]. by apply Hall.
Qed.

Lemma well_formed_utf8 s : utf8 s -> well_formed s = true.
Proof.
  induction 1 as [|c s Hc _ IH|c1 c2 s H1 H2 _ IH|c1 c2 c3 s H1 H2 H3 _ IH
                  |c1 c2 c3 c4 s H1 H2 H3 H4 _ IH]; cbn [well_formed].
  - reflexivity.
  - apply Nat.ltb_lt in Hc. by rewrite Hc.
  - replace (code c1 <? 128)%nat with false
      by (symmetry; apply Nat.ltb_ge; unfold lead2 in H1;
          apply andb_true_iff in H1 as [H1 _]; apply Nat.leb_le in H1; lia).
    by rewrite H1, H2, IH.
  - replace (code c1 <? 128)%nat with false
      by (symmetry; apply Nat.ltb_ge; unfold lead3 in H1;
          apply andb_true_iff in H1 as [H1 _]; apply Nat.leb_le in H1; lia).
    replace (lead2 (code c1)) with false
      by (symmetry; unfold lead2, lead3 in *;
          apply andb_true_iff in H1 as [H1 _]; apply Nat.leb_le in H1;
          apply andb_false_iff; right; apply Nat.leb_gt; lia).
    by rewrite H1, H2, H3, IH.
  - replace (code c1 <? 128)%nat with false
      by (symmetry; apply Nat.ltb_ge; unfold lead4 in H1;
          apply andb_true_iff in H1 as [H1 _]; apply Nat.leb_le in H1; lia).
    replace (lead2 (code c1)) with false
      by (symmetry; unfold lead2, lead4 in *;
          apply andb_true_iff in H1 as [H1 _]; apply Nat.leb_le in H1;
          apply andb_false_iff; right; apply Nat.leb_gt; lia).
    replace (lead3 (code c1)) with false
      by (symmetry; unfold lead3, lead4 in *;
          apply andb_true_iff in H1 as [H1 _]; apply Nat.leb_le in H1;
          apply andb_false_iff; right; apply Nat.leb_gt; lia).
    by rewrite H1, H2, H3, H4, IH.
Qed.

Lemma bind_normal {A B} (a : A) (f : A -> completion B) : Normal a ≫= f = f a.
Proof. reflexivity. Qed.

Lemma set_cookie_store name value now jar e :
  utf8 value -> name_ok name = true ->
  (String.length name + String.length (percent_encode value) <= 4096)%nat ->
  parse_date (toGMTString (now + Days * 24 * 60 * 60 * 1000)) = Some e ->
  set_cookie name value now jar =
    Normal (filter (fun d => live now d = true)
              (store (Cookie name (percent_encode value) (Until e)) jar)).
Proof.
  intros Hutf Hname Hlen He. unfold set_cookie, encodeURIComponent, assign.
  rewrite (well_formed_utf8 value Hutf). f_equal.
  pose proof (trim_all_solid _ (encode_solid value)) as Htrim.
  rewrite (parse_written now name (percent_encode value) _ e);
    try done; rewrite ?Htrim; try done.
  - apply encode_no_semicolon.
  - apply toGMTString_no_semicolon.
  - apply toGMTString_trim.
Qed.

Lemma tidy_in jar d : tidy jar -> d ∈ jar -> tidy_cookie d = true.
Proof. intros [H _] Hd. by eapply Forall_forall in H. Qed.

Lemma round_trip_with_dates name value now later jar e e' :
  name_ok name = true -> utf8 value ->
  (String.length name + String.length (percent_encode value) <= 4096)%nat ->
  tidy jar ->
  parse_date (toGMTString (now + Days * 24 * 60 * 60 * 1000)) = Some e ->
  now <= later -> later < e ->
  parse_date (toGMTString (later - 1)) = Some e' -> e' <= later ->
  set_cookie name value now jar ≫= get_cookie name later
    = Normal (Some value) /\
  (all (is_not ";") value = true ->
   exists jar',
     set_cookie name value now jar ≫= del_cookie name later = Normal jar' /\
     forall t, get_cookie name t jar' = Normal None) /\
  (Forall (fun d => c_name d <> name) jar ->
   del_cookie name later jar = Normal jar /\
   get_cookie name later jar = Normal None).
Proof.
  intros Hname Hutf Hlen Htidy He Hle Hlt He' Hpast.
  destruct (name_ok_inv name Hname) as (Hne & Hsolid & Hsemi & Hsp & Heq).
  rewrite (set_cookie_store name value now jar e Hutf Hname Hlen He).
  rewrite !bind_normal.
  set (c := Cookie name (percent_encode value) (Until e)).
  set (jar1 := filter (fun d => live now d = true) (store c jar)).
  assert (Hlive : forall t, t <= later -> live t c = true).
  { intros t Ht. apply Z.ltb_lt. lia. }
  assert (Hc1 : c ∈ jar1).
  { apply list_elem_of_filter. split; [apply Hlive; lia|apply elem_of_store_self]. }
  assert (Hall1 : forall d, d ∈ jar1 -> d = c \/ (d ∈ jar /\ other name d)).
  { intros d Hd. apply list_elem_of_filter in Hd as [_ Hd].
    destruct (elem_of_store c jar d (proj2 Htidy) Hd) as [->|[Hdj Hdn]]; [by left|].
    right. split; [done|]. split; [by eapply tidy_in|done]. }
  assert (Hget : get_cookie name later jar1 = Normal (Some value)).
  { unfold get_cookie.
    rewrite (get_found name c later jar1); try done.
    - unfold c. cbn [c_value]. by rewrite decode_encode.
    - apply encode_no_semicolon.
    - apply Hlive. lia.
    - intros d Hd. destruct (Hall1 d Hd) as [->|[_ Ho]]; [by left|by right]. }
  split; [exact Hget|]. split.
  - intros Hplain. unfold del_cookie. rewrite Hget. eexists. split; [reflexivity|].
    intros t. unfold assign.
    assert (Hlen' : (String.length name + String.length (trim value) <= 4096)%nat).
    { pose proof (trim_length value). pose proof (encode_length value). lia. }
    rewrite (parse_written later name value _ e' Hname Hplain Hlen'
               (toGMTString_no_semicolon _) (toGMTString_trim _) He').
    set (c' := Cookie name (trim value) (Until e')).
    apply get_absent; [done|].
    intros d Hd. apply list_elem_of_filter in Hd as [Hdl Hd].
    assert (Hnd1 : NoDup (c_name <$> jar1)).
    { apply filter_names_NoDup, store_names_NoDup, Htidy. }
    destruct (elem_of_store c' jar1 d Hnd1 Hd) as [->|[Hd1 Hdn]].
    + exfalso. cbn in Hdl. apply Z.ltb_lt in Hdl. lia.
    + destruct (Hall1 d Hd1) as [->|[_ Ho]]; [done|exact Ho].
  - intros Habsent.
    assert (Hnone : get_cookie name later jar = Normal None).
    { apply get_absent; [done|]. intros d Hd. split; [by eapply tidy_in|].
      by eapply Forall_forall in Habsent. }
    unfold del_cookie. by rewrite Hnone.
Qed.

(** C8 (as far as it holds): for a plain name, a well-formed value that
    fits the browser's 4096 octets together with the name, and a jar whose
    other cookies are tidy, [get_cookie] after [set_cookie] returns the
    value up to a second before the thirty days are over; when the value
    holds no [;], [get_cookie] after [del_cookie] returns [null]; and so it
    does when the jar holds no cookie of that name. *)
Theorem cookie_round_trip name value now later jar :
  name_ok name = true -> utf8 value ->
  (String.length name + String.length (percent_encode value) <= 4096)%nat ->
  tidy jar ->
  1 <= now <= later -> later + 1000 <= now + Days * 24 * 60 * 60 * 1000 ->
  four_digit_years (now + Days * 24 * 60 * 60 * 1000) ->
  set_cookie name value now jar ≫= get_cookie name later
    = Normal (Some value) /\
  (all (is_not ";") value = true ->
   exists jar',
     set_cookie name value now jar ≫= del_cookie name later = Normal jar' /\
     forall t, get_cookie name t jar' = Normal None) /\
  (Forall (fun d => c_name d <> name) jar ->
   del_cookie name later jar = Normal jar /\
   get_cookie name later jar = Normal None).
Proof.
  intros Hname Hutf Hlen Htidy Hnow Hlater Hyears.
  unfold four_digit_years, Days in *.
  apply (round_trip_with_dates name value now later jar
           ((now + Days * 24 * 60 * 60 * 1000) / 1000 * 1000)
           ((later - 1) / 1000 * 1000)); try done.
  - apply parse_toGMTString. unfold four_digit_years, Days. lia.
  - lia.
  - unfold Days. Z.to_euclidean_division_equations. lia.
  - apply parse_toGMTString. unfold four_digit_years. lia.
  - Z.to_euclidean_division_equations. lia.
Qed.

Lemma cookie_round_trip_witness :
  let t0 := 1606978800000 in
  let jar := [Cookie "theme" "dark" Session] in
  name_ok "lang" = true /\ utf8 "zh CN" /\
  (String.length "lang" + String.length (percent_encode "zh CN") <= 4096)%nat /\
  tidy jar /\
  1 <= t0 <= t0 + 5000 /\
  t0 + 5000 + 1000 <= t0 + Days * 24 * 60 * 60 * 1000 /\
  four_digit_years (t0 + Days * 24 * 60 * 60 * 1000) /\
  set_cookie "lang" "zh CN" t0 jar ≫= get_cookie "lang" (t0 + 5000)
    = Normal (Some "zh CN") /\
  exists jar',
    set_cookie "lang" "zh CN" t0 jar ≫= del_cookie "lang" (t0 + 5000)
      = Normal jar' /\
    forall t, get_cookie "lang" t jar' = Normal None.
Proof.
  assert (Hutf : utf8 "zh CN").
  { repeat (apply utf8_1; [apply Nat.ltb_lt; reflexivity|]). constructor. }
  assert (Htidy : tidy [Cookie "theme" "dark" Session]).
  { split; [by repeat constructor|]. cbn. apply NoDup_singleton. }
  split; [reflexivity|]. split; [exact Hutf|].
  split; [apply Nat.leb_le; reflexivity|].
  split; [exact Htidy|]. split; [lia|]. split; [unfold Days; lia|].
  split; [unfold four_digit_years, Days; lia|].
  destruct (cookie_round_trip "lang" "zh CN" 1606978800000
              (1606978800000 + 5000) [Cookie "theme" "dark" Session]
              eq_refl Hutf ltac:(apply Nat.leb_le; reflexivity) Htidy
              ltac:(lia) ltac:(unfold Days; lia)
              ltac:(unfold four_digit_years, Days; lia))
    as (Hget & Hdel & _).
  split; [exact Hget|]. exact (Hdel eq_refl).
Defined.

(** Where the round trip breaks: a name holding [;] is not stored under that
    name, a value past the browser's size limit is not stored at all, and a
    value holding [;max-age=...] survives [del_cookie], since the value is
    written back as it was decoded. *)
Lemma cookie_round_trip_breaks :
  let t0 := 1606978800000 in
  set_cookie "a;b" "v" t0 [] ≫= get_cookie "a;b" (t0 + 1) = Normal None /\
  set_cookie "k" (copies 5000 "a") t0 [] ≫= get_cookie "k" (t0 + 1)
    = Normal None /\
  set_cookie "n" "v;max-age=1000" t0 [] ≫= del_cookie "n" (t0 + 10)
    = Normal [Cookie "n" "v" (Until (t0 + 10 + 1000 * 1000))] /\
  get_cookie "n" (t0 + 20) [Cookie "n" "v" (Until (t0 + 10 + 1000 * 1000))]
    = Normal (Some "v").
Proof. vm_compute. repeat split. Qed.

End CookieSpec.

(** * Further properties of the watchdog *)

Module WatchdogMore.
Import Watchdog WatchdogSpec WatchdogTerms.

Lemma steps_ind_step (P : state -> Prop) :
  (forall ev s, P s -> P (step ev s)) ->
  forall evs s, P s -> P (steps evs s).
Proof.
  intros Hstep evs. induction evs as [|ev evs IH]; intros s Hs; [done|].
  rewrite steps_cons. apply IH, Hstep, Hs.
Qed.

(** Timers *)

Lemma timers_ok_check f s :
  f = Timer Cactive check_timeout -> timers_ok s ->
  timers_ok (set_timers (<[check_timer := f]> (timers s)) s).
Proof.
  intros -> H name t. cbn. intros Hl.
  destruct (decide (name = check_timer)) as [->|Hne].
  - rewrite lookup_insert_eq in Hl. injection Hl as <-. by left.
  - rewrite lookup_insert_ne in Hl by done. exact (H name t Hl).
Qed.

Lemma timers_ok_delete name s :
  timers_ok s -> timers_ok (set_timers (delete name (timers s)) s).
Proof.
  intros H n t. cbn. intros Hl.
  destruct (decide (name = n)) as [->|Hne].
  - by rewrite lookup_delete_eq in Hl.
  - rewrite lookup_delete_ne in Hl by done. exact (H n t Hl).
Qed.

Lemma timers_ok_frame s s' :
  timers s' = timers s -> (length (envs s) <= length (envs s'))%nat ->
  timers_ok s -> timers_ok s'.
Proof.
  intros Ht Hlen H name t. rewrite Ht. intros Hl.
  destruct (H name t Hl) as [?|(? & e & ? & ?)]; [by left|].
  right. split; [done|]. exists e. split; [done|lia].
Qed.

Lemma timers_ok_active now s : timers_ok s -> timers_ok (active now s).
Proof.
  intros H. unfold active.
  destruct (js_lt _ _); [|destruct (js_gt _ _)]; cbn;
    destruct (bool_decide (path s = "/")); cbn;
    try (apply (timers_ok_check _ (emit Auth_required s)); [done|]);
    try (apply (timers_ok_check _ s); [done|]);
    try (eapply timers_ok_frame; [| |exact H]; done); done.
Qed.

Lemma timers_ok_toggletitle e s : timers_ok s -> timers_ok (toggletitle e s).
Proof.
  intros H. unfold toggletitle.
  destruct (envs s !! e) as [env|] eqn:He; [|done].
  destruct (stop_blink env); cbn.
  - eapply timers_ok_frame; [| |exact H]; done.
  - intros name t. cbn. intros Hl.
    destruct (decide (name = title_timer)) as [->|Hne].
    + rewrite lookup_insert_eq in Hl. injection Hl as <-. right.
      split; [done|]. exists e. split; [done|].
      rewrite length_insert. by eapply lookup_lt_Some.
    + rewrite lookup_insert_ne in Hl by done.
      destruct (H name t Hl) as [?|(? & e' & ? & ?)]; [by left|].
      right. split; [done|]. exists e'. split; [done|]. by rewrite length_insert.
Qed.

Lemma timers_ok_reply now v s : timers_ok s -> timers_ok (getlastactive_cb now v s).
Proof.
  intros H. unfold getlastactive_cb. destruct (js_gt _ _).
  - eapply (timers_ok_frame (toggletitle _ _)); [done|done|].
    apply timers_ok_toggletitle.
    eapply timers_ok_frame; [| |exact H]; [done|].
    cbn. rewrite length_app. lia.
  - apply (timers_ok_check _ (set_last_active _ s)); [done|].
    eapply timers_ok_frame; [| |exact H]; done.
Qed.

Lemma timers_ok_authrenew e now s : timers_ok s -> timers_ok (authrenew e now s).
Proof.
  intros H. unfold authrenew.
  match goal with |- timers_ok (Timeout _ _ _ ?x) =>
    apply (timers_ok_check _ x); [done|] end.
  eapply timers_ok_frame; [| |exact H].
  - cbn. by destruct (envs s !! e).
  - cbn. destruct (envs s !! e); cbn; [by rewrite length_insert|done].
Qed.

Lemma timers_ok_step ev s : timers_ok s -> timers_ok (step ev s).
Proof.
  intros H. destruct ev as [n|n|n|name n|i v|n|p]; cbn.
  - unfold auto_auth. destruct (negb _); [|done].
    match goal with |- timers_ok (Timeout _ _ _ ?x) =>
      apply (timers_ok_check _ x); [done|] end.
    eapply timers_ok_frame; [| |exact H]; done.
  - unfold mousemove. destruct (_auth_check_inited s); [|done].
    eapply timers_ok_frame; [| |exact H]; done.
  - unfold keydown. destruct (_auth_check_inited s); [|done].
    eapply timers_ok_frame; [| |exact H]; done.
  - destruct (timers s !! name) as [t|] eqn:Ht; [|done].
    pose proof (timers_ok_delete name s H) as Hd.
    destruct (H name t Ht) as [[_ ->]|(_ & e & -> & _)]; cbn.
    + by apply timers_ok_active.
    + by apply timers_ok_toggletitle.
  - destruct (inflight s !! i); [|done].
    apply timers_ok_reply. eapply timers_ok_frame; [| |exact H]; done.
  - destruct (_authrenew s); [|done]. by apply timers_ok_authrenew.
  - eapply timers_ok_frame; [| |exact H]; done.
Qed.

(** X1: in every state the page can reach, the only pending timers are
    [_authtimeout], which runs [active] after [check_timeout], and
    [_authtimeout_title], which runs the [toggletitle] of an existing warning
    after 1000 ms. *)
Theorem only_the_two_timers evs title p : timers_ok (steps evs (fresh title p)).
Proof.
  apply steps_ind_step; [apply timers_ok_step|].
  intros name t. cbn. by rewrite lookup_empty.
Qed.

(** Calls *)

Lemma count_snoc e x tr :
  count e (tr ++ [x]) = (count e tr + if bool_decide (x = e) then 1 else 0)%nat.
Proof.
  unfold count. rewrite filter_app, length_app. f_equal.
  destruct (decide (x = e)) as [Hx|Hx].
  - rewrite bool_decide_eq_true_2 by done.
    rewrite filter_cons_True; [done|]. by apply bool_decide_pack.
  - rewrite bool_decide_eq_false_2 by done.
    rewrite filter_cons_False; [done|]. by intros H%bool_decide_unpack.
Qed.

Lemma toggletitle_envs e s : length (envs (toggletitle e s)) = length (envs s).
Proof.
  unfold toggletitle. destruct (envs s !! e) as [env|]; [|done].
  destruct (stop_blink env); cbn; [done|]. by rewrite length_insert.
Qed.

Lemma toggletitle_inflight e s : inflight (toggletitle e s) = inflight s.
Proof.
  unfold toggletitle. destruct (envs s !! e) as [env|]; [|done].
  by destruct (stop_blink env).
Qed.

Lemma accounted_frame s s' :
  trace s' = trace s -> length (envs s') = length (envs s) ->
  inflight s' = inflight s -> accounted s -> accounted s'.
Proof. unfold accounted. intros -> -> ->. done. Qed.

Lemma accounted_required s : accounted s -> accounted (emit Auth_required s).
Proof.
  unfold accounted. simpl. rewrite !count_snoc.
  rewrite !bool_decide_eq_false_2 by done. intros [H1 H2]. lia.
Qed.

Lemma accounted_active now s : accounted s -> accounted (active now s).
Proof.
  intros H. unfold active.
  destruct (js_lt _ _); [|destruct (js_gt _ _)]; cbn;
    destruct (bool_decide (path s = "/")); cbn.
  1,2: by eapply accounted_frame; [| | |apply (accounted_required s H)].
  3,4: by eapply accounted_frame; [| | |exact H].
  all: destruct H as [H1 H2]; unfold accounted; simpl;
    rewrite !count_snoc, length_app;
    rewrite bool_decide_eq_false_2 by done;
    rewrite bool_decide_eq_true_2 by done; cbn; lia.
Qed.

Lemma accounted_reply i now v s :
  inflight s !! i = Some now -> accounted s ->
  accounted (getlastactive_cb now v (set_inflight (delete i (inflight s)) s)).
Proof.
  intros Hi [H1 H2].
  assert (Hlen : S (length (delete i (inflight s))) = length (inflight s)).
  { apply lookup_lt_Some in Hi. rewrite length_delete; [lia|]. by apply lookup_lt_is_Some. }
  unfold getlastactive_cb. destruct (js_gt _ _); unfold accounted; simpl.
  - rewrite toggletitle_trace, toggletitle_envs, toggletitle_inflight. simpl.
    rewrite !count_snoc, length_app.
    rewrite bool_decide_eq_true_2 by done.
    rewrite bool_decide_eq_false_2 by done. cbn. lia.
  - lia.
Qed.

Lemma accounted_step ev s : accounted s -> accounted (step ev s).
Proof.
  intros H. destruct ev as [n|n|n|name n|i v|n|p]; cbn.
  - unfold auto_auth. destruct (negb _); [|done].
    by eapply accounted_frame; [| | |exact H].
  - unfold mousemove. destruct (_auth_check_inited s); [|done].
    by eapply accounted_frame; [| | |exact H].
  - unfold keydown. destruct (_auth_check_inited s); [|done].
    by eapply accounted_frame; [| | |exact H].
  - destruct (timers s !! name) as [[f d]|]; [|done]. destruct f; cbn.
    + apply accounted_active. by eapply accounted_frame; [| | |exact H].
    + eapply accounted_frame; [apply toggletitle_trace|apply toggletitle_envs
                              |apply toggletitle_inflight|].
      by eapply accounted_frame; [| | |exact H].
  - destruct (inflight s !! i) eqn:Hi; [|done]. by apply accounted_reply.
  - destruct (_authrenew s) as [e|]; [|done]. unfold authrenew.
    eapply accounted_frame; [| | |apply (accounted_required s H)]; cbn.
    + by destruct (envs s !! e).
    + destruct (envs s !! e); cbn; [by rewrite length_insert|done].
    + by destruct (envs s !! e).
  - by eapply accounted_frame; [| | |exact H].
Qed.

(** X2: in every state the page can reach, the modal was opened once per
    warning, and never more often than the server has answered a query:
    modals and queries still in flight together do not exceed the queries
    sent. *)
Theorem modal_only_after_server_reply evs title p :
  accounted (steps evs (fresh title p)).
Proof.
  apply steps_ind_step; [apply accounted_step|].
  unfold accounted. cbn. lia.
Qed.

(** Initialisation *)

Lemma inited_step ev s :
  _auth_check_inited s = true -> _auth_check_inited (step ev s) = true.
Proof.
  intros H. destruct ev as [n|n|n|name n|i v|n|p]; cbn.
  - unfold auto_auth. by rewrite H.
  - unfold mousemove. by rewrite H.
  - unfold keydown. by rewrite H.
  - destruct (timers s !! name) as [[f d]|]; [|done]. destruct f; cbn.
    + unfold active. destruct (js_lt _ _); [|destruct (js_gt _ _)]; cbn;
        by destruct (bool_decide (path s = "/")).
    + unfold toggletitle. cbn. destruct (envs s !! env) as [b|]; [|done].
      by destruct (stop_blink b).
  - destruct (inflight s !! i); [|done]. unfold getlastactive_cb.
    destruct (js_gt _ _); cbn; [|done].
    unfold toggletitle. cbn. rewrite lookup_app_r by done.
    by rewrite Nat.sub_diag.
  - destruct (_authrenew s) as [e|]; [|done]. unfold authrenew. cbn.
    by destruct (envs s !! e).
  - done.
Qed.

(** X3: [auto_auth] takes effect once.  The first call records the clock as
    [last_active] and schedules the first tick after [check_timeout]; a call
    made at any later point, whatever happened in between, changes nothing:
    it neither resets [last_active] nor touches a timer. *)
Theorem auto_auth_once now now' evs s :
  _auth_check_inited s = false ->
  last_active (auto_auth now s) = Num now /\
  timers (auto_auth now s) !! check_timer = Some (Timer Cactive check_timeout) /\
  step (Init now') (steps evs (auto_auth now s)) = steps evs (auto_auth now s).
Proof.
  intros H. unfold auto_auth at 1 2. rewrite H. cbn.
  split; [done|]. split; [apply lookup_insert_eq|].
  assert (Hin : _auth_check_inited (steps evs (auto_auth now s)) = true).
  { apply (steps_ind_step (fun s => _auth_check_inited s = true));
      [apply inited_step|]. unfold auto_auth. by rewrite H. }
  unfold auto_auth at 1. by rewrite Hin.
Qed.

Lemma auto_auth_once_witness :
  _auth_check_inited (fresh "InPanel" "/service") = false /\
  step (Init 900000)
       (steps [Mousemove 1000; Fire check_timer 300000]
              (auto_auth 0 (fresh "InPanel" "/service")))
  = steps [Mousemove 1000; Fire check_timer 300000]
          (auto_auth 0 (fresh "InPanel" "/service")).
Proof.
  split; [reflexivity|].
  apply (auto_auth_once 0 900000 [Mousemove 1000; Fire check_timer 300000]
           (fresh "InPanel" "/service") eq_refl).
Defined.

(** Silent ticks *)

Lemma trace_grows {A} (l : list A) x : l ++ [x] <> l.
Proof.
  intros H. apply (f_equal length) in H. rewrite length_app in H. cbn in H. lia.
Qed.

(** X4: a tick calls neither [Auth.required] nor [Auth.getlastactive]
    exactly when the idle time lies between the two thresholds, bounds
    included, or [last_active] is not a number; such a tick leaves
    [last_active] and the queries in flight as they are. *)
Theorem tick_silent_in_band now s :
  (trace (active now s) = trace s <-> silent now s) /\
  (silent now s ->
   last_active (active now s) = last_active s /\
   inflight (active now s) = inflight s /\
   htmlTitle (active now s) = htmlTitle s).
Proof.
  unfold silent, active. destruct (last_active s) as [l|] eqn:Hl; cbn.
  - destruct (Z.ltb_spec (now - l) check_timeout) as [H1|H1]; cbn.
    + split.
      * split; [|lia]. destruct (bool_decide (path s = "/")); cbn;
          intros H; by apply trace_grows in H.
      * lia.
    + unfold js_gt. cbn.
      destruct (Z.ltb_spec auth_timeout (now - l)) as [H2|H2]; cbn.
      * split; [|lia]. split; [|lia]. intros H. by apply trace_grows in H.
      * split.
        -- split; [lia|]. intros _. by destruct (bool_decide (path s = "/")).
        -- intros _. destruct (bool_decide (path s = "/")); cbn; by rewrite Hl.
  - split.
    + split; [done|]. intros _. by destruct (bool_decide (path s = "/")).
    + intros _. destruct (bool_decide (path s = "/")); cbn; by rewrite Hl.
Qed.

Lemma tick_silent_in_band_witness :
  let s := steps [Init 0] (fresh "InPanel" "/service") in
  silent 1000000 s /\ trace (active 1000000 s) = trace s
  /\ inflight (active 1000000 s) = inflight s.
Proof.
  assert (Hs : silent 1000000 (steps [Init 0] (fresh "InPanel" "/service"))).
  { unfold silent. cbn. unfold check_timeout, auth_timeout. lia. }
  split; [exact Hs|].
  destruct (tick_silent_in_band 1000000
              (steps [Init 0] (fresh "InPanel" "/service"))) as [Hiff Hrest].
  split; [by apply Hiff|]. by apply Hrest.
Defined.

(** A reply that is no number *)

Lemma step_tick t f d s :
  timers s !! check_timer = Some (Timer f d) ->
  step (Fire check_timer t) s = run f t (set_timers (delete check_timer (timers s)) s).
Proof. intros H. cbn. fold check_timer. by rewrite H. Qed.

Lemma stalled_tick t s :
  last_active s = NaN ->
  (timers s !! check_timer = None
   \/ timers s !! check_timer = Some (Timer Cactive check_timeout)) ->
  last_active (step (Fire check_timer t) s) = NaN /\
  trace (step (Fire check_timer t) s) = trace s /\
  inflight (step (Fire check_timer t) s) = inflight s /\
  _auth_check_inited (step (Fire check_timer t) s) = _auth_check_inited s /\
  (timers (step (Fire check_timer t) s) !! check_timer = None
   \/ timers (step (Fire check_timer t) s) !! check_timer
      = Some (Timer Cactive check_timeout)).
Proof.
  intros Hl [Ht|Ht].
  - cbn. fold check_timer. rewrite Ht. by repeat split; [..|left].
  - rewrite (step_tick t _ _ s Ht). cbn. unfold active. cbn. rewrite Hl. cbn.
    destruct (bool_decide (path s = "/")); cbn.
    + repeat split; try done. left. apply lookup_delete_eq.
    + repeat split; try done. right. apply lookup_insert_eq.
Qed.

(** X5: when the server's reply is no number, [last_active] becomes [NaN]
    and the next tick is scheduled; from then on ticks call nothing and ask
    nothing, however many fire, until an input event stores a clock reading
    again. *)
Theorem unreadable_reply_stalls now j s ts t :
  inflight s !! j = Some now ->
  last_active (step (Reply j NaN) s) = NaN /\
  trace (step (Reply j NaN) s) = trace s /\
  timers (step (Reply j NaN) s) !! check_timer
    = Some (Timer Cactive check_timeout) /\
  last_active (steps (ticks ts) (step (Reply j NaN) s)) = NaN /\
  trace (steps (ticks ts) (step (Reply j NaN) s)) = trace s /\
  inflight (steps (ticks ts) (step (Reply j NaN) s))
    = inflight (step (Reply j NaN) s) /\
  (_auth_check_inited s = true ->
   last_active (mousemove t (steps (ticks ts) (step (Reply j NaN) s))) = Num t).
Proof.
  intros Hj. rewrite (step_reply j now NaN s Hj).
  set (s1 := getlastactive_cb now NaN (set_inflight (delete j (inflight s)) s)).
  assert (H1 : last_active s1 = NaN /\ trace s1 = trace s
               /\ timers s1 !! check_timer = Some (Timer Cactive check_timeout)
               /\ _auth_check_inited s1 = _auth_check_inited s).
  { subst s1. unfold getlastactive_cb. cbn. repeat split. apply lookup_insert_eq. }
  destruct H1 as (Hl & Htr & Htm & Hin).
  split; [done|]. split; [done|]. split; [done|].
  assert (H2 : forall ts s2,
    last_active s2 = NaN ->
    (timers s2 !! check_timer = None
     \/ timers s2 !! check_timer = Some (Timer Cactive check_timeout)) ->
    last_active (steps (ticks ts) s2) = NaN
    /\ trace (steps (ticks ts) s2) = trace s2
    /\ inflight (steps (ticks ts) s2) = inflight s2
    /\ _auth_check_inited (steps (ticks ts) s2) = _auth_check_inited s2).
  { clear. intros ts. induction ts as [|t ts IH]; intros s2 Hl Ht; [done|].
    unfold ticks. rewrite fmap_cons, steps_cons. fold (ticks ts).
    destruct (stalled_tick t s2 Hl Ht) as (Hl' & Htr' & Hi' & Hin' & Ht').
    destruct (IH _ Hl' Ht') as (? & ? & ? & ?).
    repeat split; congruence. }
  destruct (H2 ts s1 Hl (or_intror Htm)) as (Hl2 & Htr2 & Hi2 & Hin2).
  split; [done|]. split; [congruence|]. split; [done|].
  intros Hinit. unfold mousemove. rewrite Hin2, Hin, Hinit. done.
Qed.

Lemma unreadable_reply_stalls_witness :
  let s := steps [Init 0; Fire check_timer 3000000] (fresh "InPanel" "/service") in
  inflight s !! 0%nat = Some 3000000 /\
  last_active (steps (ticks [3300000; 3600000]) (step (Reply 0 NaN) s)) = NaN /\
  trace (steps (ticks [3300000; 3600000]) (step (Reply 0 NaN) s)) = trace s.
Proof.
  split; [reflexivity|].
  destruct (unreadable_reply_stalls 3000000 0
              (steps [Init 0; Fire check_timer 3000000] (fresh "InPanel" "/service"))
              [3300000; 3600000] 0 eq_refl)
    as (_ & _ & _ & Hl & Htr & _).
  split; [exact Hl|exact Htr].
Defined.

(** While the warning is shown *)

(** X6: a tick that asks the server does not schedule its successor, and the
    warning that follows an expiry reply does not either: until the user
    confirms, no tick is pending and no [Auth.required] call is made,
    whatever input events and title toggles occur. *)
Theorem warning_suspends_ticks now l v d s evs :
  last_active s = Num l -> auth_timeout < now - l ->
  auth_timeout < now - v * 1000 ->
  timers s !! check_timer = Some (Timer Cactive d) ->
  Forall (fun ev => quiet ev = true) evs ->
  timers (step (Fire check_timer now) s) !! check_timer = None /\
  timers (steps evs (step (Reply (length (inflight s)) (Num v))
                          (step (Fire check_timer now) s))) !! check_timer = None /\
  count Auth_required
    (trace (steps evs (step (Reply (length (inflight s)) (Num v))
                            (step (Fire check_timer now) s))))
  = count Auth_required (trace s).
Proof.
  intros Hl Hidle Hsrv Ht Hq.
  rewrite (step_tick now _ _ s Ht). cbn [run].
  set (s0 := set_timers (delete check_timer (timers s)) s).
  rewrite (active_query now l s0 Hl Hidle).
  set (s1 := set_inflight (inflight s0 ++ [now]) (emit Auth_getlastactive s0)).
  assert (Hnone : timers s1 !! check_timer = None) by apply lookup_delete_eq.
  split; [exact Hnone|].
  assert (Hj : inflight s1 !! length (inflight s) = Some now).
  { subst s1 s0. cbn. rewrite lookup_app_r by done. by rewrite Nat.sub_diag. }
  rewrite (step_reply _ now (Num v) s1 Hj).
  set (s2 := set_inflight (delete (length (inflight s)) (inflight s1)) s1).
  pose proof (reply_blinking now v s2 Hsrv) as Hb.
  destruct (quiet_steps_frame evs _ _ _ _ Hq Hb) as [Htr Htm].
  rewrite Htm, Htr, (reply_expired now v s2 Hsrv). cbn [timers trace emit set_authrenew].
  rewrite toggletitle_check_timer, toggletitle_trace.
  split; [exact Hnone|].
  subst s2 s1 s0. cbn [trace set_envs set_inflight emit set_timers].
  rewrite !count_snoc. rewrite !bool_decide_eq_false_2 by done. lia.
Qed.

Lemma warning_suspends_ticks_witness :
  let s := steps [Init 0] (fresh "InPanel" "/service") in
  let evs := [Fire title_timer 3001100; Mousemove 3001500] in
  last_active s = Num 0 /\ auth_timeout < 3000000 - 0 /\
  auth_timeout < 3000000 - 100 * 1000 /\
  timers s !! check_timer = Some (Timer Cactive check_timeout) /\
  Forall (fun ev => quiet ev = true) evs /\
  timers (steps evs (step (Reply (length (inflight s)) (Num 100))
                          (step (Fire check_timer 3000000) s))) !! check_timer = None.
Proof.
  split; [reflexivity|]. split; [reflexivity|]. split; [reflexivity|].
  split; [reflexivity|]. split; [repeat constructor|].
  apply (warning_suspends_ticks 3000000 0 100 check_timeout
           (steps [Init 0] (fresh "InPanel" "/service"))
           [Fire title_timer 3001100; Mousemove 3001500]
           eq_refl eq_refl eq_refl eq_refl ltac:(repeat constructor)).
Defined.

(** An active user *)

Lemma steps_rounds_cons r rs s :
  steps (rounds (r :: rs)) s
  = steps (rounds rs) (step (Fire check_timer (snd r)) (mousemove (fst r) s)).
Proof. unfold rounds. rewrite fmap_cons. cbn [concat]. by rewrite steps_app. Qed.

(** X7: away from the main view, as long as every tick finds an input event
    less than [check_timeout] old, every tick makes exactly one
    [Auth.required] call and schedules the next tick; no query is sent and
    no warning is raised. *)
Theorem active_user_keeps_session rs : forall s,
  _auth_check_inited s = true -> path s <> "/" ->
  timers s !! check_timer = Some (Timer Cactive check_timeout) ->
  Forall (fun r => snd r - fst r < check_timeout) rs ->
  trace (steps (rounds rs) s) = trace s ++ replicate (length rs) Auth_required /\
  timers (steps (rounds rs) s) !! check_timer = Some (Timer Cactive check_timeout) /\
  inflight (steps (rounds rs) s) = inflight s /\
  _authrenew (steps (rounds rs) s) = _authrenew s /\
  htmlTitle (steps (rounds rs) s) = htmlTitle s.
Proof.
  induction rs as [|[m f] rs IH]; intros s Hin Hp Ht Hrs.
  - cbn. by rewrite app_nil_r.
  - inversion Hrs as [|? ? Hr Hrs']; subst. cbn [fst snd] in Hr.
    rewrite steps_rounds_cons. cbn [fst snd].
    unfold mousemove. rewrite Hin.
    set (s1 := set_last_active (Num m) s).
    rewrite (step_tick f _ _ s1 Ht). cbn [run].
    set (s2 := set_timers (delete check_timer (timers s1)) s1).
    rewrite (active_refresh f m s2 eq_refl Hr).
    rewrite bool_decide_eq_false_2 by done.
    set (s3 := Timeout Cactive check_timeout check_timer (emit Auth_required s2)).
    destruct (IH s3) as (Htr & Htm & Hi & Hr' & Hh); try done.
    { apply lookup_insert_eq. }
    rewrite Htr, Htm, Hi, Hr', Hh. cbn.
    repeat split. by rewrite <- app_assoc.
Qed.

Lemma active_user_keeps_session_witness :
  let s := steps [Init 0] (fresh "InPanel" "/service") in
  let rs := [(200000, 300000); (550000, 600000)] in
  _auth_check_inited s = true /\ path s <> "/" /\
  timers s !! check_timer = Some (Timer Cactive check_timeout) /\
  Forall (fun r => snd r - fst r < check_timeout) rs /\
  trace (steps (rounds rs) s) = trace s ++ replicate 2 Auth_required.
Proof.
  split; [reflexivity|]. split; [discriminate|]. split; [reflexivity|].
  split; [repeat constructor|].
  apply (active_user_keeps_session [(200000, 300000); (550000, 600000)]
           (steps [Init 0] (fresh "InPanel" "/service"))
           eq_refl ltac:(discriminate) eq_refl ltac:(repeat constructor)).
Defined.

End WatchdogMore.

(** * Further properties of the auth gate *)

Module GateMore.
Import Gate.

(** X8: the gate never rejects its promise, resolves it exactly when the
    check succeeds with a true [authed], and changes the location only on a
    failure with status 403, to [/login]. *)
Theorem auth_resolves_only_when_authed a s :
  (deferred (auth a s) = Resolved <-> a = Success true) /\
  deferred (auth a s) <> Rejected /\
  (path (auth a s) = path s \/ (a = Failure 403 /\ path (auth a s) = "/login")).
Proof.
  destruct a as [[]|status]; cbn.
  - split; [done|]. split; [done|]. by left.
  - split; [|split; [done|by left]]. split; [done|]. intros H. by injection H.
  - unfold on_error. destruct (Z.eqb_spec status 403) as [->|Hne]; cbn.
    + split; [done|]. split; [done|]. by right.
    + split; [done|]. split; [done|]. by left.
Qed.

End GateMore.

(** * Further properties of the route table *)

Module RouterMore.
Import Router RouterTerms RouterSpec.

Lemma find_found {A} (f : A -> bool) (l : list A) x :
  find f l = Some x -> x ∈ l /\ f x = true.
Proof.
  induction l as [|y l IH]; [done|]. cbn. destruct (f y) eqn:Hy.
  - intros H. injection H as <-. split; [constructor|done].
  - intros H. destruct (IH H) as [Hin Hf]. split; [by constructor|done].
Qed.

Lemma entries_gated tp v :
  Forall (fun e => resolve (snd e) = Some "Auth"
                   \/ snd e = _r tp v "login" "LoginCtrl" true)
         (entries tp v).
Proof. unfold entries. repeat (constructor; [by (left + right)|]). constructor. Qed.

(** X9: whatever the path, the route rendered for it, directly or through
    the fallback, is the login route or carries the [Auth] gate: the login
    page is the only one served without the gate. *)
Theorem every_page_but_login_is_gated tp v p r :
  navigate (config tp v) p = Render r ->
  resolve r = Some "Auth" \/ r = _r tp v "login" "LoginCtrl" true.
Proof.
  unfold navigate.
  assert (Hgate : forall q, parseRoute (config tp v) q = Render r ->
            resolve r = Some "Auth" \/ r = _r tp v "login" "LoginCtrl" true).
  { intros q. unfold parseRoute. rewrite config_whens.
    destruct (find _ _) as [e|] eqn:Hf; [|by destruct (fallback _)].
    intros H. injection H as <-. destruct (find_found _ _ _ Hf) as [Hin _].
    pose proof (entries_gated tp v) as Hall.
    rewrite Forall_forall in Hall. by apply Hall. }
  destruct (parseRoute (config tp v) p) as [r'|q|] eqn:Hr.
  - intros H. injection H as <-. by apply (Hgate p).
  - apply Hgate.
  - done.
Qed.

Lemma every_page_but_login_is_gated_witness :
  navigate (config "/static" "1") "/nowhere"
    = Render (_r "/static" "1" "sorry" "SorryCtrl" false) /\
  (resolve (_r "/static" "1" "sorry" "SorryCtrl" false) = Some "Auth"
   \/ _r "/static" "1" "sorry" "SorryCtrl" false
      = _r "/static" "1" "login" "LoginCtrl" true).
Proof.
  split; [vm_compute; reflexivity|].
  apply (every_page_but_login_is_gated "/static" "1" "/nowhere").
  vm_compute; reflexivity.
Defined.

Lemma entries_resolve tp v :
  Forall (fun e => literal (fst e) = true ->
                   parseRoute (config tp v) (fst e) = Render (snd e))
         (entries tp v).
Proof.
  unfold entries.
  repeat (constructor;
          [first [intros _; vm_compute; reflexivity
                 | intros H; vm_compute in H; discriminate H]|]).
  constructor.
Qed.

(** X10: no entry hides a later one that is spelled out in full: the path of
    every entry without a [:name] group resolves to that entry's own
    route. *)
Theorem literal_routes_not_shadowed tp v e :
  e ∈ entries tp v -> literal (fst e) = true ->
  parseRoute (config tp v) (fst e) = Render (snd e).
Proof.
  intros Hin. pose proof (entries_resolve tp v) as H.
  rewrite Forall_forall in H. by apply H.
Qed.

Lemma literal_routes_not_shadowed_witness :
  ("/ecs/index", _r "/static" "1" "ecs/index" "ECSIndexCtrl" false)
    ∈ entries "/static" "1" /\
  literal "/ecs/index" = true /\
  parseRoute (config "/static" "1") "/ecs/index"
    = Render (_r "/static" "1" "ecs/index" "ECSIndexCtrl" false).
Proof.
  assert (Hin : ("/ecs/index", _r "/static" "1" "ecs/index" "ECSIndexCtrl" false)
                  ∈ entries "/static" "1").
  { unfold entries. repeat (first [apply list_elem_of_here | apply list_elem_of_further]). }
  split; [exact Hin|]. split; [reflexivity|].
  apply (literal_routes_not_shadowed "/static" "1" _ Hin). reflexivity.
Defined.

End RouterMore.

(** * Properties of the server-type query *)

Module VirtSpec.
Import Virt.

Lemma virt_steps_cons ev evs s : steps (ev :: evs) s = steps evs (step ev s).
Proof. reflexivity. Qed.

Lemma awaited_app w1 w2 : awaited_of (w1 ++ w2) = awaited_of w1 ++ awaited_of w2.
Proof. unfold awaited_of. apply omap_app. Qed.

Lemma awaited_delete i w o :
  w !! i = Some o ->
  awaited_of w ≡ₚ match o with Some f => [f] | None => [] end ++ awaited_of (delete i w).
Proof.
  revert i. induction w as [|x w IH]; intros [|i] H; try done.
  - cbn in H. injection H as ->. by destruct o.
  - cbn in H. specialize (IH i H). cbn [delete list_delete].
    unfold awaited_of in *. destruct x as [g|]; cbn.
    + rewrite IH. destruct o; cbn; [apply Permutation_swap|done].
    + exact IH.
Qed.

Lemma passed_cons ev evs : passed (ev :: evs) = passed [ev] ++ passed evs.
Proof. by destruct ev as [[f|]|i data]. Qed.

Lemma step_accounts ev s :
  called (step ev s) ++ awaited (step ev s)
    ⊆+ (called s ++ awaited s) ++ passed [ev].
Proof.
  destruct ev as [[f|]|i data]; cbn [step passed].
  - unfold checkVirt. destruct (known (virt s)); cbn.
    + apply submseteq_inserts_r. done.
    + unfold awaited. cbn. rewrite awaited_app. cbn. by rewrite !(assoc_L (++)).
  - unfold checkVirt. destruct (known (virt s)); cbn; rewrite ?app_nil_r; [done|].
    unfold awaited. cbn. rewrite awaited_app. cbn. by rewrite !app_nil_r.
  - rewrite app_nil_r. unfold reply.
    destruct (waiting s !! i) as [o|] eqn:Hi; [|done].
    unfold awaited. cbn. rewrite (awaited_delete i (waiting s) o Hi).
    destruct o as [f|]; cbn; [|done]. by rewrite <- (assoc_L (++)).
Qed.

(** X12: over any run of calls and replies, a callback is invoked only if it
    was passed to [checkVirt], and no more often than it was passed: the
    callbacks invoked and those still awaited are together a part of the
    callbacks passed. *)
Theorem callbacks_invoked_at_most_once evs :
  called (steps evs init) ++ awaited (steps evs init) ⊆+ passed evs.
Proof.
  assert (H : forall evs s,
    called (steps evs s) ++ awaited (steps evs s)
      ⊆+ (called s ++ awaited s) ++ passed evs).
  { clear. intros evs. induction evs as [|ev evs IH]; intros s.
    - cbn. by rewrite app_nil_r.
    - rewrite virt_steps_cons. etrans; [apply IH|].
      rewrite (passed_cons ev evs).
      rewrite (assoc_L (++)). apply submseteq_app; [apply step_accounts|done]. }
  apply (H evs init).
Qed.

End VirtSpec.

(** * Further properties of the cookie helpers *)

Module CookieMore.
Import Cookie CookieSpec CookieTerms.

(** The jar under assignments *)

Lemma parse_written_shape now name v D :
  name_ok name = true -> all (is_not ";") v = true -> all (is_not ";") D = true ->
  parse_cookie now (name +:+ "=" +:+ v +:+ ";expires=" +:+ D) = None
  \/ exists ex, parse_cookie now (name +:+ "=" +:+ v +:+ ";expires=" +:+ D)
                = Some (Cookie name (trim v) ex).
Proof.
  intros Hname Hv HD.
  destruct (name_ok_inv name Hname) as (Hne & Hsolid & Hsemi & _ & Heq).
  unfold parse_cookie.
  replace (name +:+ "=" +:+ v +:+ ";expires=" +:+ D)
    with ((name +:+ "=" +:+ v) +:+ String ";" ("expires=" +:+ D))
    by (by rewrite !sapp_assoc).
  rewrite split_on_app by (by rewrite !all_app, Hsemi, Hv).
  rewrite split_on_plain by (rewrite all_app; by rewrite HD).
  replace (name +:+ "=" +:+ v) with (name +:+ String "=" v) by done.
  rewrite split_first_app by done.
  rewrite (trim_all_solid name Hsolid).
  destruct (String.eqb_spec name EmptyString) as [->|_]; [done|].
  destruct (Nat.ltb _ _); [by left|].
  destruct (attributes _ _ _ _) as [ma ex]. right. by eexists.
Qed.

Lemma elem_of_store_other c jar d :
  d ∈ jar -> c_name d <> c_name c -> d ∈ store c jar.
Proof.
  induction jar as [|x jar IH]; cbn [store]; intros Hin Hne.
  - by apply elem_of_nil in Hin.
  - destruct (String.eqb_spec (c_name x) (c_name c)) as [Heq|Hx].
    + apply elem_of_cons in Hin as [->|Hin]; [done|]. by constructor.
    + apply elem_of_cons in Hin as [->|Hin]; [constructor|].
      constructor. by apply IH.
Qed.

Lemma names_inj jar x y :
  NoDup (c_name <$> jar) -> x ∈ jar -> y ∈ jar -> c_name x = c_name y -> x = y.
Proof.
  induction jar as [|z jar IH]; intros Hnd Hx Hy Heq.
  - by apply elem_of_nil in Hx.
  - rewrite fmap_cons in Hnd. apply NoDup_cons in Hnd as [Hz Hnd].
    apply elem_of_cons in Hx as [->|Hx]; apply elem_of_cons in Hy as [->|Hy].
    + done.
    + exfalso. apply Hz. rewrite Heq. by apply list_elem_of_fmap_2.
    + exfalso. apply Hz. rewrite <- Heq. by apply list_elem_of_fmap_2.
    + by apply IH.
Qed.

Lemma tidy_store c jar : tidy jar -> tidy_cookie c = true -> tidy (store c jar).
Proof.
  intros [Hall Hnd] Hc. split; [|by apply store_names_NoDup].
  apply Forall_forall. intros d Hd.
  destruct (elem_of_store c jar d Hnd Hd) as [->|[Hin _]]; [done|].
  by eapply Forall_forall in Hall.
Qed.

Lemma tidy_filter (P : cookie -> Prop) `{!forall d, Decision (P d)} jar :
  tidy jar -> tidy (filter P jar).
Proof.
  intros [Hall Hnd]. split; [|by apply filter_names_NoDup].
  apply Forall_forall. intros d Hd. apply list_elem_of_filter in Hd as [_ Hd].
  by eapply Forall_forall in Hall.
Qed.

Lemma written_tidy name value ex :
  name_ok name = true -> tidy_cookie (Cookie name (percent_encode value) ex) = true.
Proof.
  intros Hname. destruct (name_ok_inv name Hname) as (_ & _ & _ & Hsp & Heq).
  unfold tidy_cookie. cbn. by rewrite Hsp, Heq, encode_no_space.
Qed.

Lemma set_cookie_tidy name value now jar :
  name_ok name = true -> tidy jar ->
  tidy (jar_after (set_cookie name value now jar) jar).
Proof.
  intros Hname Htidy. unfold set_cookie, encodeURIComponent, assign.
  destruct (well_formed value); cbn [jar_after]; [|done].
  destruct (parse_written_shape now name (percent_encode value)
              (toGMTString (now + Days * 24 * 60 * 60 * 1000)) Hname
              (encode_no_semicolon value) (toGMTString_no_semicolon _))
    as [->|[ex ->]]; [done|].
  rewrite (trim_all_solid _ (encode_solid value)).
  apply tidy_filter, tidy_store; [done|]. by apply written_tidy.
Qed.

(** X13: a tidy jar stays tidy under [set_cookie] with a plain name: the
    names stay distinct and free of [=], and no name or value holds a
    space, whatever the value passed; a call that throws leaves the jar as
    it was. *)
Theorem set_cookie_keeps_tidy name value now jar :
  name_ok name = true -> tidy jar ->
  tidy (jar_after (set_cookie name value now jar) jar).
Proof. apply set_cookie_tidy. Qed.

Lemma set_cookie_keeps_tidy_witness :
  name_ok "lang" = true /\ tidy [Cookie "theme" "dark" Session] /\
  tidy (jar_after (set_cookie "lang" "zh CN;x" 1606978800000
                     [Cookie "theme" "dark" Session])
                  [Cookie "theme" "dark" Session]).
Proof.
  assert (Htidy : tidy [Cookie "theme" "dark" Session]).
  { split; [by repeat constructor|]. cbn. apply NoDup_singleton. }
  split; [reflexivity|]. split; [exact Htidy|].
  apply (set_cookie_keeps_tidy "lang" "zh CN;x" 1606978800000 _ eq_refl Htidy).
Defined.

(** Which cookies an assignment leaves in the jar *)

Lemma elem_of_assigned t c jar d :
  NoDup (c_name <$> jar) ->
  d ∈ filter (fun d => live t d = true) (store c jar) <->
  live t d = true /\ (d = c \/ (d ∈ jar /\ c_name d <> c_name c)).
Proof.
  intros Hnd. rewrite list_elem_of_filter. split; intros [Hl Hd]; (split; [done|]).
  - by apply elem_of_store.
  - destruct Hd as [->|[Hd Hne]]; [apply elem_of_store_self|].
    by apply elem_of_store_other.
Qed.

Lemma expiry_read now :
  1 <= now -> four_digit_years (now + Days * 24 * 60 * 60 * 1000) ->
  parse_date (toGMTString (now + Days * 24 * 60 * 60 * 1000))
  = Some ((now + Days * 24 * 60 * 60 * 1000) / 1000 * 1000).
Proof. intros _ H. by apply parse_toGMTString. Qed.

Lemma set_cookie_written name value now jar :
  utf8 value -> name_ok name = true ->
  (String.length name + String.length (percent_encode value) <= 4096)%nat ->
  four_digit_years (now + Days * 24 * 60 * 60 * 1000) ->
  set_cookie name value now jar
  = Normal (filter (fun d => live now d = true)
              (store (written name value now) jar)).
Proof.
  intros Hutf Hname Hlen Hy. apply set_cookie_store; [done|done|done|].
  by apply parse_toGMTString.
Qed.

Lemma written_live name value now t :
  t + 1000 <= now + Days * 24 * 60 * 60 * 1000 -> live t (written name value now) = true.
Proof.
  intros H. cbn. apply Z.ltb_lt. unfold Days in *.
  Z.to_euclidean_division_equations. lia.
Qed.

Lemma written_dead name value now t :
  now + Days * 24 * 60 * 60 * 1000 <= t -> live t (written name value now) = false.
Proof.
  intros H. cbn. apply Z.ltb_ge. unfold Days in *.
  Z.to_euclidean_division_equations. lia.
Qed.

(** Reading a tidy jar *)

Lemma get_reads name c t jar :
  tidy jar -> c ∈ jar -> live t c = true -> c_name c = name ->
  all (is_not ";") (c_value c) = true ->
  get_cookie name t jar
  = match decodeURIComponent (c_value c) with
    | Some v => Normal (Some v)
    | None => URIError
    end.
Proof.
  intros Htidy Hin Hlive Hname Hv. unfold get_cookie.
  rewrite (get_found name c t jar); try done.
  - rewrite <- Hname. apply tidy_name. by eapply tidy_in.
  - intros d Hd. destruct (decide (c_name d = name)) as [Hdn|Hdn].
    + left. apply (names_inj jar); [apply Htidy|done|done|congruence].
    + right. split; [by eapply tidy_in|done].
Qed.

Lemma get_misses name t jar :
  all (is_not "=") name = true ->
  (forall d, d ∈ jar -> live t d = true -> other name d) ->
  get_cookie name t jar = Normal None.
Proof.
  intros Hname Hall. unfold get_cookie, document_cookie.
  rewrite exec_not_found; [done|done|].
  apply Forall_forall. intros d Hd.
  apply list_elem_of_filter in Hd as [Hl Hd]. by apply Hall.
Qed.

Lemma tidy_assigned t c jar :
  tidy jar -> (live t c = true -> tidy_cookie c = true) ->
  tidy (filter (fun d => live t d = true) (store c jar)).
Proof.
  intros [Hall Hnd] Hc. split.
  - apply Forall_forall. intros d Hd.
    apply (elem_of_assigned t c jar d Hnd) in Hd as [Hl [->|[Hd _]]]; [by apply Hc|].
    by eapply Forall_forall in Hall.
  - by apply filter_names_NoDup, store_names_NoDup.
Qed.

(** X14: writes compose.  For plain names, well-formed values that fit the
    4096 octets together with their names, and a tidy jar: after two
    [set_cookie] calls, [get_cookie] returns the value of the second call
    under its name (also when both calls use the same name), and still the
    value of the first call under the first name when the names differ, up
    to a second before the first cookie's thirty days are over. *)
Theorem set_cookie_last_write_wins n1 v1 n2 v2 now1 now2 later jar :
  name_ok n1 = true -> name_ok n2 = true -> utf8 v1 -> utf8 v2 ->
  (String.length n1 + String.length (percent_encode v1) <= 4096)%nat ->
  (String.length n2 + String.length (percent_encode v2) <= 4096)%nat ->
  tidy jar ->
  1 <= now1 <= now2 -> now2 <= later ->
  later + 1000 <= now1 + Days * 24 * 60 * 60 * 1000 ->
  four_digit_years (now2 + Days * 24 * 60 * 60 * 1000) ->
  (set_cookie n1 v1 now1 jar ≫= set_cookie n2 v2 now2) ≫= get_cookie n2 later
    = Normal (Some v2) /\
  (n1 <> n2 ->
   (set_cookie n1 v1 now1 jar ≫= set_cookie n2 v2 now2) ≫= get_cookie n1 later
     = Normal (Some v1)).
Proof.
  intros Hn1 Hn2 Hu1 Hu2 Hl1 Hl2 Htidy Hnow Hlater Hexp Hy.
  assert (Hy1 : four_digit_years (now1 + Days * 24 * 60 * 60 * 1000)).
  { unfold four_digit_years, Days in *. lia. }
  pose proof (set_cookie_tidy n1 v1 now1 jar Hn1 Htidy) as Ht1.
  rewrite (set_cookie_written n1 v1 now1 jar Hu1 Hn1 Hl1 Hy1) in *.
  cbn [jar_after] in Ht1. rewrite !bind_normal.
  pose proof (set_cookie_tidy n2 v2 now2 _ Hn2 Ht1) as Ht2.
  rewrite (set_cookie_written n2 v2 now2 _ Hu2 Hn2 Hl2 Hy) in *.
  cbn [jar_after] in Ht2. rewrite !bind_normal.
  set (c1 := written n1 v1 now1) in *. set (c2 := written n2 v2 now2) in *.
  set (jar1 := filter (fun d => live now1 d = true) (store c1 jar)) in *.
  set (jar2 := filter (fun d => live now2 d = true) (store c2 jar1)) in *.
  assert (Hc2 : c2 ∈ jar2).
  { apply elem_of_assigned; [apply Ht1|]. split; [|by left].
    apply written_live. lia. }
  split.
  - rewrite (get_reads n2 c2 later jar2 Ht2 Hc2); try done.
    + unfold c1, c2, written. cbn [c_value]. by rewrite decode_encode.
    + apply written_live. lia.
    + apply encode_no_semicolon.
  - intros Hne.
    assert (Hc1 : c1 ∈ jar2).
    { apply elem_of_assigned; [apply Ht1|]. split; [apply written_live; lia|].
      right. split; [|done]. apply elem_of_assigned; [apply Htidy|].
      split; [apply written_live; lia|by left]. }
    rewrite (get_reads n1 c1 later jar2 Ht2 Hc1); try done.
    + unfold c1, c2, written. cbn [c_value]. by rewrite decode_encode.
    + by apply written_live.
    + apply encode_no_semicolon.
Qed.

Lemma set_cookie_last_write_wins_witness :
  let t0 := 1606978800000 in
  name_ok "lang" = true /\ name_ok "theme" = true /\ utf8 "zh" /\ utf8 "dark" /\
  (String.length "lang" + String.length (percent_encode "zh") <= 4096)%nat /\
  (String.length "theme" + String.length (percent_encode "dark") <= 4096)%nat /\
  tidy [] /\ 1 <= t0 <= t0 + 10 /\ t0 + 10 <= t0 + 20 /\
  t0 + 20 + 1000 <= t0 + Days * 24 * 60 * 60 * 1000 /\
  four_digit_years (t0 + 10 + Days * 24 * 60 * 60 * 1000) /\
  (set_cookie "lang" "zh" t0 [] ≫= set_cookie "theme" "dark" (t0 + 10))
    ≫= get_cookie "theme" (t0 + 20) = Normal (Some "dark") /\
  (set_cookie "lang" "zh" t0 [] ≫= set_cookie "theme" "dark" (t0 + 10))
    ≫= get_cookie "lang" (t0 + 20) = Normal (Some "zh").
Proof.
  assert (Hu1 : utf8 "zh").
  { repeat (apply utf8_1; [apply Nat.ltb_lt; reflexivity|]). constructor. }
  assert (Hu2 : utf8 "dark").
  { repeat (apply utf8_1; [apply Nat.ltb_lt; reflexivity|]). constructor. }
  assert (Htidy : tidy []) by (split; constructor).
  split; [reflexivity|]. split; [reflexivity|]. split; [exact Hu1|].
  split; [exact Hu2|]. split; [apply Nat.leb_le; reflexivity|].
  split; [apply Nat.leb_le; reflexivity|]. split; [exact Htidy|].
  split; [lia|]. split; [lia|]. split; [unfold Days; lia|].
  split; [unfold four_digit_years, Days; lia|].
  destruct (set_cookie_last_write_wins "lang" "zh" "theme" "dark"
              1606978800000 (1606978800000 + 10) (1606978800000 + 20) []
              eq_refl eq_refl Hu1 Hu2
              ltac:(apply Nat.leb_le; reflexivity)
              ltac:(apply Nat.leb_le; reflexivity) Htidy
              ltac:(lia) ltac:(lia) ltac:(unfold Days; lia)
              ltac:(unfold four_digit_years, Days; lia))
    as [H2 H1].
  split; [exact H2|]. apply H1. discriminate.
Defined.

(** X15: for a plain name, a well-formed value that fits the 4096 octets
    together with the name, and a tidy jar: thirty days after [set_cookie]
    the cookie is gone, and from then on [get_cookie] returns [null] under
    that name, also when the jar held a cookie of that name before the
    call. *)
Theorem set_cookie_expires_after_thirty_days name value now later jar :
  name_ok name = true -> utf8 value ->
  (String.length name + String.length (percent_encode value) <= 4096)%nat ->
  tidy jar -> 1 <= now ->
  four_digit_years (now + Days * 24 * 60 * 60 * 1000) ->
  now + Days * 24 * 60 * 60 * 1000 <= later ->
  set_cookie name value now jar ≫= get_cookie name later = Normal None.
Proof.
  intros Hname Hutf Hlen Htidy Hnow Hy Hlater.
  destruct (name_ok_inv name Hname) as (_ & _ & _ & _ & Heq).
  rewrite (set_cookie_written name value now jar Hutf Hname Hlen Hy).
  rewrite bind_normal.
  apply get_misses; [done|]. intros d Hd Hlive.
  apply (elem_of_assigned now _ jar d (proj2 Htidy)) in Hd as [_ [->|[Hd Hne]]].
  - by rewrite written_dead in Hlive.
  - split; [by eapply tidy_in|done].
Qed.

Lemma set_cookie_expires_after_thirty_days_witness :
  let t0 := 1606978800000 in
  name_ok "lang" = true /\ utf8 "zh" /\
  (String.length "lang" + String.length (percent_encode "zh") <= 4096)%nat /\
  tidy [Cookie "lang" "en" Session] /\ 1 <= t0 /\
  four_digit_years (t0 + Days * 24 * 60 * 60 * 1000) /\
  t0 + Days * 24 * 60 * 60 * 1000 <= t0 + 2592000000 /\
  set_cookie "lang" "zh" t0 [Cookie "lang" "en" Session]
    ≫= get_cookie "lang" (t0 + 2592000000) = Normal None.
Proof.
  assert (Hutf : utf8 "zh").
  { repeat (apply utf8_1; [apply Nat.ltb_lt; reflexivity|]). constructor. }
  assert (Htidy : tidy [Cookie "lang" "en" Session]).
  { split; [by repeat constructor|]. cbn. apply NoDup_singleton. }
  split; [reflexivity|]. split; [exact Hutf|].
  split; [apply Nat.leb_le; reflexivity|].
  split; [exact Htidy|]. split; [lia|].
  split; [unfold four_digit_years, Days; lia|]. split; [unfold Days; lia|].
  apply (set_cookie_expires_after_thirty_days "lang" "zh" 1606978800000
           (1606978800000 + 2592000000) _ eq_refl Hutf
           ltac:(apply Nat.leb_le; reflexivity) Htidy ltac:(lia)
           ltac:(unfold four_digit_years, Days; lia) ltac:(unfold Days; lia)).
Defined.

(** X16: in a tidy jar, a live cookie of a plain name whose stored value
    holds no [;] and is not a valid percent-encoding makes [get_cookie]
    throw URIError under its name, and [del_cookie] with it: the helpers can
    neither read nor delete such a cookie. *)
Theorem malformed_cookie_throws name c now jar :
  name_ok name = true -> tidy jar -> c ∈ jar -> live now c = true -> c_name c = name ->
  all (is_not ";") (c_value c) = true ->
  decodeURIComponent (c_value c) = None ->
  get_cookie name now jar = URIError /\ del_cookie name now jar = URIError.
Proof.
  intros _ Htidy Hin Hlive Hname Hv Hdec.
  assert (Hget : get_cookie name now jar = URIError).
  { rewrite (get_reads name c now jar); try done. by rewrite Hdec. }
  split; [exact Hget|]. unfold del_cookie. by rewrite Hget.
Qed.

Lemma malformed_cookie_throws_witness :
  let jar := [Cookie "theme" "dark" Session; Cookie "rate" "100%" Session] in
  name_ok "rate" = true /\ tidy jar /\ Cookie "rate" "100%" Session ∈ jar /\
  live 1606978800000 (Cookie "rate" "100%" Session) = true /\
  decodeURIComponent "100%" = None /\
  get_cookie "rate" 1606978800000 jar = URIError /\
  del_cookie "rate" 1606978800000 jar = URIError.
Proof.
  assert (Htidy : tidy [Cookie "theme" "dark" Session; Cookie "rate" "100%" Session]).
  { split; [by repeat constructor|]. cbn.
    apply NoDup_cons. split; [|apply NoDup_singleton].
    intros H. apply list_elem_of_singleton in H. discriminate H. }
  assert (Hin : Cookie "rate" "100%" Session
                  ∈ [Cookie "theme" "dark" Session; Cookie "rate" "100%" Session]).
  { apply list_elem_of_further, list_elem_of_here. }
  split; [reflexivity|].
  split; [exact Htidy|]. split; [exact Hin|]. split; [reflexivity|].
  split; [reflexivity|].
  apply (malformed_cookie_throws "rate" (Cookie "rate" "100%" Session)
           1606978800000 _ eq_refl Htidy Hin eq_refl eq_refl eq_refl eq_refl).
Defined.

(** X17: deleting one cookie leaves the others readable.  For two different
    plain names, well-formed values that fit the 4096 octets together with
    their names, the first free of [;], and a tidy jar: after two
    [set_cookie] calls, [del_cookie] of the first name, up to a second
    before the thirty days are over, makes [get_cookie] return [null] under
    that name and still the second value under the second name. *)
Theorem del_cookie_spares_the_others n1 v1 n2 v2 now later jar :
  name_ok n1 = true -> name_ok n2 = true -> n1 <> n2 ->
  utf8 v1 -> utf8 v2 -> all (is_not ";") v1 = true ->
  (String.length n1 + String.length (percent_encode v1) <= 4096)%nat ->
  (String.length n2 + String.length (percent_encode v2) <= 4096)%nat ->
  tidy jar ->
  1 <= now <= later -> later + 1000 <= now + Days * 24 * 60 * 60 * 1000 ->
  four_digit_years (now + Days * 24 * 60 * 60 * 1000) ->
  exists jar',
    (set_cookie n1 v1 now jar ≫= set_cookie n2 v2 now) ≫= del_cookie n1 later
      = Normal jar' /\
    get_cookie n1 later jar' = Normal None /\
    get_cookie n2 later jar' = Normal (Some v2).
Proof.
  intros Hn1 Hn2 Hne Hu1 Hu2 Hplain Hl1 Hl2 Htidy Hnow Hexp Hy.
  destruct (name_ok_inv n1 Hn1) as (_ & _ & _ & _ & Heq1).
  pose proof (set_cookie_tidy n1 v1 now jar Hn1 Htidy) as Ht1.
  rewrite (set_cookie_written n1 v1 now jar Hu1 Hn1 Hl1 Hy) in *.
  cbn [jar_after] in Ht1. rewrite !bind_normal.
  pose proof (set_cookie_tidy n2 v2 now _ Hn2 Ht1) as Ht2.
  rewrite (set_cookie_written n2 v2 now _ Hu2 Hn2 Hl2 Hy) in *.
  cbn [jar_after] in Ht2. rewrite !bind_normal.
  set (c1 := written n1 v1 now) in *. set (c2 := written n2 v2 now) in *.
  set (jar1 := filter (fun d => live now d = true) (store c1 jar)) in *.
  set (jar2 := filter (fun d => live now d = true) (store c2 jar1)) in *.
  assert (Hc2 : c2 ∈ jar2).
  { apply elem_of_assigned; [apply Ht1|]. split; [|by left]. apply written_live. lia. }
  assert (Hc1 : c1 ∈ jar2).
  { apply elem_of_assigned; [apply Ht1|]. split; [apply written_live; lia|].
    right. split; [|done]. apply elem_of_assigned; [apply Htidy|].
    split; [apply written_live; lia|by left]. }
  unfold del_cookie.
  rewrite (get_reads n1 c1 later jar2 Ht2 Hc1); try done;
    [|by apply written_live|apply encode_no_semicolon].
  unfold c1 at 1, written at 1. cbn [c_value]. rewrite (decode_encode v1 Hu1).
  eexists. split; [reflexivity|]. unfold assign.
  assert (Hlen' : (String.length n1 + String.length (trim v1) <= 4096)%nat).
  { pose proof (trim_length v1). pose proof (encode_length v1). lia. }
  rewrite (parse_written later n1 v1 _ ((later - 1) / 1000 * 1000) Hn1 Hplain Hlen'
             (toGMTString_no_semicolon _) (toGMTString_trim _));
    [|apply parse_toGMTString; unfold four_digit_years, Days in *; lia].
  set (c' := Cookie n1 (trim v1) (Until ((later - 1) / 1000 * 1000))).
  assert (Hdead : live later c' = false).
  { cbn. apply Z.ltb_ge. Z.to_euclidean_division_equations. lia. }
  assert (Ht3 : tidy (filter (fun d => live later d = true) (store c' jar2))).
  { apply tidy_assigned; [done|]. by rewrite Hdead. }
  split.
  - apply get_misses; [done|]. intros d Hd _.
    apply (elem_of_assigned later c' jar2 d (proj2 Ht2)) in Hd as [Hl [->|[Hd Hdn]]].
    + by rewrite Hdead in Hl.
    + split; [exact (tidy_in jar2 d Ht2 Hd)|done].
  - assert (Hc3 : c2 ∈ filter (fun d => live later d = true) (store c' jar2)).
    { apply elem_of_assigned; [apply Ht2|]. split; [by apply written_live|].
      right. split; [done|]. cbn. congruence. }
    rewrite (get_reads n2 c2 later _ Ht3 Hc3); try done.
    + unfold c1, c2, written. cbn [c_value]. by rewrite decode_encode.
    + by apply written_live.
    + apply encode_no_semicolon.
Qed.

Lemma del_cookie_spares_the_others_witness :
  let t0 := 1606978800000 in
  name_ok "lang" = true /\ name_ok "theme" = true /\ "lang" <> "theme" /\
  utf8 "zh" /\ utf8 "dark" /\ all (is_not ";") "zh" = true /\
  (String.length "lang" + String.length (percent_encode "zh") <= 4096)%nat /\
  (String.length "theme" + String.length (percent_encode "dark") <= 4096)%nat /\
  tidy [] /\ 1 <= t0 <= t0 + 20 /\
  t0 + 20 + 1000 <= t0 + Days * 24 * 60 * 60 * 1000 /\
  four_digit_years (t0 + Days * 24 * 60 * 60 * 1000) /\
  exists jar',
    (set_cookie "lang" "zh" t0 [] ≫= set_cookie "theme" "dark" t0)
      ≫= del_cookie "lang" (t0 + 20) = Normal jar' /\
    get_cookie "lang" (t0 + 20) jar' = Normal None /\
    get_cookie "theme" (t0 + 20) jar' = Normal (Some "dark").
Proof.
  assert (Hu1 : utf8 "zh").
  { repeat (apply utf8_1; [apply Nat.ltb_lt; reflexivity|]). constructor. }
  assert (Hu2 : utf8 "dark").
  { repeat (apply utf8_1; [apply Nat.ltb_lt; reflexivity|]). constructor. }
  assert (Htidy : tidy []) by (split; constructor).
  split; [reflexivity|]. split; [reflexivity|]. split; [discriminate|].
  split; [exact Hu1|]. split; [exact Hu2|]. split; [reflexivity|].
  split; [apply Nat.leb_le; reflexivity|].
  split; [apply Nat.leb_le; reflexivity|]. split; [exact Htidy|].
  split; [lia|]. split; [unfold Days; lia|].
  split; [unfold four_digit_years, Days; lia|].
  apply (del_cookie_spares_the_others "lang" "zh" "theme" "dark"
           1606978800000 (1606978800000 + 20) []
           eq_refl eq_refl ltac:(discriminate) Hu1 Hu2 eq_refl
           ltac:(apply Nat.leb_le; reflexivity)
           ltac:(apply Nat.leb_le; reflexivity) Htidy
           ltac:(lia) ltac:(unfold Days; lia)
           ltac:(unfold four_digit_years, Days; lia)).
Defined.

(** [getCookie] *)

Lemma starts_with_short a : forall b r,
  all (is_not "=") a = true -> (String.length b < String.length a)%nat ->
  starts_with (a +:+ "=") (b +:+ String "=" r) = None.
Proof.
  induction a as [|c a IH]; intros b r Ha Hlen; [cbn in Hlen; lia|].
  cbn [all] in Ha. apply andb_true_iff in Ha as [Hc Ha].
  rewrite sapp_cons. destruct b as [|d b].
  - rewrite sapp_nil_l. cbn [starts_with]. by rewrite (is_not_eqb _ _ Hc).
  - rewrite sapp_cons. cbn [starts_with].
    destruct (Ascii.eqb c d); [|done]. apply IH; [done|]. cbn in Hlen. lia.
Qed.

Lemma starts_with_no_eq a : forall s,
  all (is_not "=") s = true -> starts_with (a +:+ "=") s = None.
Proof.
  induction a as [|c a IH]; intros [|d s] Hs; try done.
  - cbn [all] in Hs. apply andb_true_iff in Hs as [Hd _].
    rewrite sapp_nil_l. cbn [starts_with].
    by rewrite Ascii.eqb_sym, (is_not_eqb _ _ Hd).
  - cbn [all] in Hs. apply andb_true_iff in Hs as [_ Hs].
    rewrite sapp_cons. cbn [starts_with]. destruct (Ascii.eqb c d); [|done].
    by apply IH.
Qed.

Lemma bsearch_eq pat prev s :
  bsearch pat prev s
  = match (if boundary prev (head s) then
             match starts_with pat s with
             | Some r => last_boundary (Some "="%char) r
             | None => None
             end
           else None) with
    | Some v => Some v
    | None =>
        match s with
        | EmptyString => None
        | String c s' => bsearch pat (Some c) s'
        end
    end.
Proof. by destruct s. Qed.

Lemma bsearch_step pat prev s :
  starts_with pat s = None ->
  bsearch pat prev s
  = match s with
    | EmptyString => None
    | String c s' => bsearch pat (Some c) s'
    end.
Proof. intros H. destruct s; cbn [bsearch]; rewrite H; by destruct (boundary _ _). Qed.

Lemma bsearch_no_eq a : forall s prev,
  all (is_not "=") s = true -> bsearch (a +:+ "=") prev s = None.
Proof.
  induction s as [|c s IH]; intros prev Hs;
    rewrite bsearch_step by (by apply starts_with_no_eq); [done|].
  cbn [all] in Hs. apply andb_true_iff in Hs as [_ Hs]. by apply IH.
Qed.

Lemma bsearch_inside a r : forall b prev,
  all (is_not "=") a = true -> all (is_not "=") r = true ->
  (String.length b < String.length a)%nat ->
  bsearch (a +:+ "=") prev (b +:+ String "=" r) = None.
Proof.
  induction b as [|d b IH]; intros prev Ha Hr Hlen;
    rewrite bsearch_step by (by apply starts_with_short).
  - rewrite sapp_nil_l. by apply bsearch_no_eq.
  - rewrite sapp_cons. apply IH; [done|done|]. cbn in Hlen. lia.
Qed.

Lemma last_boundary_upto s : forall prev,
  all (is_not ";") s = true ->
  last_boundary prev s
  = if word prev then Some (default EmptyString (upto_last_word s))
    else upto_last_word s.
Proof.
  induction s as [|c s IH]; intros prev Hs; cbn [last_boundary upto_last_word].
  - unfold boundary. cbn [word]. by destruct (word prev).
  - cbn [all] in Hs. apply andb_true_iff in Hs as [Hc Hs].
    rewrite (is_not_eqb _ _ Hc), (IH (Some c) Hs). unfold boundary. cbn [word].
    destruct (word_char c); destruct (upto_last_word s); by destruct (word prev).
Qed.

Lemma word_unreserved c : word_char c = true -> unreserved c = true.
Proof. each_ascii c; vm_compute; intros H; try discriminate H; reflexivity. Qed.

Lemma encode_words s : all word_char s = true -> percent_encode s = s.
Proof.
  induction s as [|c s IH]; [done|]. cbn [all percent_encode].
  intros H. apply andb_true_iff in H as [Hc Hs].
  by rewrite (word_unreserved c Hc), (IH Hs).
Qed.

Lemma upto_words s :
  all word_char s = true -> s <> EmptyString -> upto_last_word s = Some s.
Proof.
  induction s as [|c s IH]; [done|]. cbn [all upto_last_word].
  intros H _. apply andb_true_iff in H as [Hc Hs]. rewrite Hc.
  destruct s as [|d s]; [done|]. by rewrite (IH Hs).
Qed.

Lemma enc_char_no_eq c : enc_char c = true -> is_not "=" c = true.
Proof. each_ascii c; vm_compute; intros H; try discriminate H; reflexivity. Qed.

(** X18: [getCookie] does not decode.  For a plain name that starts with a
    word character and a well-formed value that fits the 4096 octets
    together with the name, on a page without other cookies and up to a
    second before the thirty days are over: after [set_cookie name value],
    [getCookie name] returns the encoded value cut after its last word
    character, and [undefined] when the encoded value has no word
    character; so it returns the value itself when that is a non-empty run
    of word characters, and [undefined] for the empty value. *)
Theorem getCookie_reads_the_raw_value name value now later :
  name_ok name = true -> word (head name) = true -> utf8 value ->
  (String.length name + String.length (percent_encode value) <= 4096)%nat ->
  1 <= now <= later -> later + 1000 <= now + Days * 24 * 60 * 60 * 1000 ->
  four_digit_years (now + Days * 24 * 60 * 60 * 1000) ->
  exists jar',
    set_cookie name value now [] = Normal jar' /\
    getCookie name later jar' = upto_last_word (percent_encode value) /\
    (all word_char value = true -> value <> EmptyString ->
     getCookie name later jar' = Some value) /\
    (value = EmptyString -> getCookie name later jar' = None).
Proof.
  intros Hname Hhead Hutf Hlen Hnow Hexp Hy.
  destruct (name_ok_inv name Hname) as (Hne & _ & _ & _ & Heq).
  rewrite (set_cookie_written name value now [] Hutf Hname Hlen Hy).
  eexists. split; [reflexivity|].
  set (jar' := filter _ _).
  assert (Hmain : getCookie name later jar'
                  = upto_last_word (percent_encode value)).
  { unfold jar', getCookie, document_cookie. cbn [store].
    rewrite filter_cons_True by (apply written_live; lia). rewrite filter_nil.
    rewrite filter_cons_True by (by apply written_live). rewrite filter_nil.
    cbn [fmap list_fmap join]. unfold render, written. cbn [c_name c_value].
    set (enc := percent_encode value).
    assert (Henc : all (is_not "=") enc = true).
    { eapply all_impl; [|apply encode_chars]. apply enc_char_no_eq. }
    rewrite <- (sapp_assoc name "=" enc), bsearch_eq, starts_with_app.
    rewrite last_boundary_upto by apply encode_no_semicolon.
    destruct name as [|c0 name0]; [done|]. cbn [head word] in Hhead.
    rewrite !sapp_cons. cbn [head]. unfold boundary. cbn [word].
    rewrite Hhead. cbn [xorb].
    replace (word_char "=") with false by reflexivity.
    destruct (upto_last_word enc) as [r|]; [done|].
    rewrite <- sapp_cons, (sapp_assoc name0 "=" enc).
    change ("=" +:+ enc) with (String "=" enc).
    apply bsearch_inside; [done|done|]. cbn. lia. }
  split; [exact Hmain|]. split.
  - intros Hw Hv. rewrite Hmain, (encode_words value Hw). by apply upto_words.
  - intros Hv. rewrite Hmain, Hv. reflexivity.
Qed.

Lemma getCookie_reads_the_raw_value_witness :
  let t0 := 1606978800000 in
  name_ok "lang" = true /\ word (head "lang") = true /\ utf8 "zh CN!" /\
  (String.length "lang" + String.length (percent_encode "zh CN!") <= 4096)%nat /\
  1 <= t0 <= t0 + 20 /\ t0 + 20 + 1000 <= t0 + Days * 24 * 60 * 60 * 1000 /\
  four_digit_years (t0 + Days * 24 * 60 * 60 * 1000) /\
  exists jar',
    set_cookie "lang" "zh CN!" t0 [] = Normal jar' /\
    getCookie "lang" (t0 + 20) jar' = Some "zh%20CN".
Proof.
  assert (Hutf : utf8 "zh CN!").
  { repeat (apply utf8_1; [apply Nat.ltb_lt; reflexivity|]). constructor. }
  split; [reflexivity|]. split; [reflexivity|]. split; [exact Hutf|].
  split; [apply Nat.leb_le; reflexivity|]. split; [lia|].
  split; [unfold Days; lia|]. split; [unfold four_digit_years, Days; lia|].
  destruct (getCookie_reads_the_raw_value "lang" "zh CN!" 1606978800000
              (1606978800000 + 20) eq_refl eq_refl Hutf
              ltac:(apply Nat.leb_le; reflexivity) ltac:(lia)
              ltac:(unfold Days; lia) ltac:(unfold four_digit_years, Days; lia))
    as (jar' & Hset & Hget & _).
  exists jar'. split; [exact Hset|]. rewrite Hget. reflexivity.
Defined.

End CookieMore.
